(** * Threadkeeper: an append-only note store behind approval-gated tools

    A shallow embedding of [src/index.ts].  JavaScript strings are sequences
    of UTF-16 code units; the store file is the text that
    [fs.readFile(path, "utf8")] returns; [JSON.stringify] and [JSON.parse]
    are modelled on code units following ECMA-262, and the tool handlers are
    state-passing functions over a small file-system state. *)

From Stdlib Require Import NArith ZArith String Ascii List Lia Bool.
From stdpp Require Import base option list gmap.

Set Warnings "-register-all".
Local Open Scope N_scope.

(** ** JavaScript strings *)

(** A JavaScript string is a list of 16-bit code units. *)
Abbreviation jsstring := (list N).

(** An ASCII literal of the source as a JavaScript string. *)
Definition js (s : string) : jsstring :=
  List.map N_of_ascii (list_ascii_of_string s).
Arguments js s%_string.

(** A literal of JSON text, written with ['] where the text has a double
    quote. *)
Definition jsq (s : string) : jsstring :=
  List.map (fun c => if c =? 39 then 34 else c) (js s).
Arguments jsq s%_string.

(** The code unit of an ASCII character. *)
Definition ch (a : ascii) : N := N_of_ascii a.
Arguments ch a%_char.

Definition LF : N := 10.
Definition CR : N := 13.
Definition DQUOTE : N := 34.
Definition BACKSLASH : N := 92.

(** Strict equality [===] of two strings. *)
Fixpoint jsstring_eqb (a b : jsstring) : bool :=
  match a, b with
  | [], [] => true
  | x :: a', y :: b' => (x =? y) && jsstring_eqb a' b'
  | _, _ => false
  end.

(** [Array.prototype.join]. *)
Fixpoint join (sep : jsstring) (parts : list jsstring) : jsstring :=
  match parts with
  | [] => []
  | [p] => p
  | p :: rest => p ++ sep ++ join sep rest
  end.

(** [String.prototype.startsWith] at position 0, the matcher under
    [String.prototype.includes]. *)
Fixpoint startsWith (s needle : jsstring) : bool :=
  match needle, s with
  | [], _ => true
  | _ :: _, [] => false
  | n :: needle', c :: s' => (c =? n) && startsWith s' needle'
  end.

(** [String.prototype.includes]: some position of [s] starts an occurrence
    of [needle], compared code unit by code unit. *)
Fixpoint includes (s needle : jsstring) : bool :=
  startsWith s needle ||
  match s with
  | [] => false
  | _ :: s' => includes s' needle
  end.

(** Surrogate code units. *)
Definition is_high_surrogate (c : N) : bool := (55296 <=? c) && (c <=? 56319).
Definition is_low_surrogate (c : N) : bool := (56320 <=? c) && (c <=? 57343).

(** Writing a string with the "utf8" encoding and reading it back: paired
    surrogates survive, a lone surrogate comes back as U+FFFD. *)
Fixpoint utf8_roundtrip (s : jsstring) : jsstring :=
  match s with
  | [] => []
  | c :: rest =>
    if is_high_surrogate c then
      match rest with
      | d :: rest' =>
        if is_low_surrogate d then c :: d :: utf8_roundtrip rest'
        else 65533 :: utf8_roundtrip rest
      | [] => [65533]
      end
    else if is_low_surrogate c then 65533 :: utf8_roundtrip rest
    else c :: utf8_roundtrip rest
  end.

(** Decimal rendering of a number in a template literal. *)
Fixpoint uint_digits (d : Decimal.uint) : jsstring :=
  match d with
  | Decimal.Nil => []
  | Decimal.D0 d => 48 :: uint_digits d
  | Decimal.D1 d => 49 :: uint_digits d
  | Decimal.D2 d => 50 :: uint_digits d
  | Decimal.D3 d => 51 :: uint_digits d
  | Decimal.D4 d => 52 :: uint_digits d
  | Decimal.D5 d => 53 :: uint_digits d
  | Decimal.D6 d => 54 :: uint_digits d
  | Decimal.D7 d => 55 :: uint_digits d
  | Decimal.D8 d => 56 :: uint_digits d
  | Decimal.D9 d => 57 :: uint_digits d
  end.

Definition decimal (n : nat) : jsstring := uint_digits (Nat.to_uint n).

(** ** JSON values *)

Inductive json : Type :=
| JNull
| JBool (b : bool)
| JNumber (lexeme : jsstring)
| JString (s : jsstring)
| JArray (items : list json)
| JObject (props : list (jsstring * json)).

(** ** JSON.stringify on strings (QuoteJSONString) *)

Definition hex_digit (n : N) : N := if n <? 10 then 48 + n else 87 + n.

(** [UnicodeEscape]: a backslash, [u] and four lowercase hex digits. *)
Definition unicode_escape (c : N) : jsstring :=
  [BACKSLASH; ch "u"; hex_digit ((c / 4096) mod 16); hex_digit ((c / 256) mod 16);
   hex_digit ((c / 16) mod 16); hex_digit (c mod 16)].

Definition quote_code_unit (c : N) : jsstring :=
  if c =? 8 then [BACKSLASH; ch "b"]
  else if c =? 9 then [BACKSLASH; ch "t"]
  else if c =? 10 then [BACKSLASH; ch "n"]
  else if c =? 12 then [BACKSLASH; ch "f"]
  else if c =? 13 then [BACKSLASH; ch "r"]
  else if c =? DQUOTE then [BACKSLASH; DQUOTE]
  else if c =? BACKSLASH then [BACKSLASH; BACKSLASH]
  else if c <? 32 then unicode_escape c
  else [c].

(** The body of a quoted string: a surrogate pair is copied, a lone
    surrogate is escaped, every other code unit goes through the table. *)
Fixpoint quote_body (s : jsstring) : jsstring :=
  match s with
  | [] => []
  | c :: rest =>
    if is_high_surrogate c then
      match rest with
      | d :: rest' =>
        if is_low_surrogate d then c :: d :: quote_body rest'
        else unicode_escape c ++ quote_body rest
      | [] => unicode_escape c
      end
    else if is_low_surrogate c then unicode_escape c ++ quote_body rest
    else quote_code_unit c ++ quote_body rest
  end.

Definition QuoteJSONString (s : jsstring) : jsstring :=
  DQUOTE :: quote_body s ++ [DQUOTE].

(** [SerializeJSONObject] for an object whose property values are strings
    or [undefined]: properties in creation order, the undefined ones left
    out, no white space. *)
Definition serialize_property (p : jsstring * option jsstring) : option jsstring :=
  match p with
  | (k, Some v) => Some (QuoteJSONString k ++ ch ":" :: QuoteJSONString v)
  | (_, None) => None
  end.

Definition JSON_stringify_record (props : list (jsstring * option jsstring)) : jsstring :=
  ch "{" :: join [ch ","] (omap serialize_property props) ++ [ch "}"].

(** ** JSON.parse *)

Definition is_ws (c : N) : bool :=
  (c =? 32) || (c =? 9) || (c =? 10) || (c =? 13).

Fixpoint skip_ws (s : jsstring) : jsstring :=
  match s with
  | c :: rest => if is_ws c then skip_ws rest else s
  | [] => []
  end.

Definition expect (c : N) (s : jsstring) : option jsstring :=
  match s with
  | d :: rest => if d =? c then Some rest else None
  | [] => None
  end.

Definition hex_value (c : N) : option N :=
  if (48 <=? c) && (c <=? 57) then Some (c - 48)
  else if (97 <=? c) && (c <=? 102) then Some (c - 87)
  else if (65 <=? c) && (c <=? 70) then Some (c - 55)
  else None.

Definition hex4 (a b c d : N) : option N :=
  match hex_value a, hex_value b, hex_value c, hex_value d with
  | Some x, Some y, Some z, Some w => Some (((x * 16 + y) * 16 + z) * 16 + w)
  | _, _, _, _ => None
  end.

(** The single-character escapes of a JSON string. *)
Definition unescape (e : N) : option N :=
  if e =? DQUOTE then Some DQUOTE
  else if e =? BACKSLASH then Some BACKSLASH
  else if e =? ch "/" then Some (ch "/")
  else if e =? ch "b" then Some 8
  else if e =? ch "f" then Some 12
  else if e =? ch "n" then Some 10
  else if e =? ch "r" then Some 13
  else if e =? ch "t" then Some 9
  else None.

Definition cons_result (c : N) (r : option (jsstring * jsstring)) : option (jsstring * jsstring) :=
  match r with
  | Some (s, rest) => Some (c :: s, rest)
  | None => None
  end.

(** A string after its opening quote: the decoded code units and the input
    after the closing quote. *)
Fixpoint parse_string_body (s : jsstring) : option (jsstring * jsstring) :=
  match s with
  | [] => None
  | c :: rest =>
    if c =? DQUOTE then Some ([], rest)
    else if c =? BACKSLASH then
      match rest with
      | [] => None
      | e :: rest1 =>
        if e =? ch "u" then
          match rest1 with
          | h1 :: h2 :: h3 :: h4 :: rest2 =>
            match hex4 h1 h2 h3 h4 with
            | Some v => cons_result v (parse_string_body rest2)
            | None => None
            end
          | _ => None
          end
        else
          match unescape e with
          | Some v => cons_result v (parse_string_body rest1)
          | None => None
          end
      end
    else if c <? 32 then None
    else cons_result c (parse_string_body rest)
  end.

Definition is_digit (c : N) : bool := (48 <=? c) && (c <=? 57).

Fixpoint span_digits (s : jsstring) : jsstring * jsstring :=
  match s with
  | c :: rest =>
    if is_digit c then let '(ds, r) := span_digits rest in (c :: ds, r)
    else ([], s)
  | [] => ([], [])
  end.

(** One or more digits. *)
Definition digits1 (s : jsstring) : option (jsstring * jsstring) :=
  match span_digits s with
  | ([], _) => None
  | (ds, r) => Some (ds, r)
  end.

(** The integer part: a single 0, or a non-zero digit and more digits. *)
Definition int_part (s : jsstring) : option (jsstring * jsstring) :=
  match s with
  | c :: rest =>
    if c =? 48 then Some ([c], rest)
    else if is_digit c then let '(ds, r) := span_digits rest in Some (c :: ds, r)
    else None
  | [] => None
  end.

Definition frac_part (s : jsstring) : option (jsstring * jsstring) :=
  match s with
  | c :: rest =>
    if c =? ch "." then
      match digits1 rest with
      | Some (ds, r) => Some (c :: ds, r)
      | None => None
      end
    else Some ([], s)
  | [] => Some ([], [])
  end.

Definition exp_part (s : jsstring) : option (jsstring * jsstring) :=
  match s with
  | c :: rest =>
    if (c =? ch "e") || (c =? ch "E") then
      match rest with
      | sg :: rest' =>
        if (sg =? ch "+") || (sg =? ch "-") then
          match digits1 rest' with
          | Some (ds, r) => Some (c :: sg :: ds, r)
          | None => None
          end
        else
          match digits1 rest with
          | Some (ds, r) => Some (c :: ds, r)
          | None => None
          end
      | [] => None
      end
    else Some ([], s)
  | [] => Some ([], [])
  end.

(** A JSON number; the value kept is its source text. *)
Definition parse_number (s : jsstring) : option (jsstring * jsstring) :=
  let '(sign, s0) :=
    match s with
    | c :: rest => if c =? ch "-" then ([c], rest) else ([], s)
    | [] => ([], s)
    end in
  match int_part s0 with
  | Some (i, s1) =>
    match frac_part s1 with
    | Some (f, s2) =>
      match exp_part s2 with
      | Some (e, s3) => Some (sign ++ i ++ f ++ e, s3)
      | None => None
      end
    | None => None
    end
  | None => None
  end.

Fixpoint strip_prefix (p s : jsstring) : option jsstring :=
  match p, s with
  | [], _ => Some s
  | _ :: _, [] => None
  | a :: p', c :: s' => if c =? a then strip_prefix p' s' else None
  end.

(** A value that starts at the head of the input (white space already
    skipped).  [fuel] bounds the number of nested calls; twice the length
    of the input is always enough ([parse_fuel]). *)
Fixpoint parse_value (fuel : nat) (s : jsstring) {struct fuel} : option (json * jsstring) :=
  match fuel with
  | O => None
  | S fuel =>
    match s with
    | [] => None
    | c :: rest =>
      if c =? ch "{" then
        match expect (ch "}") (skip_ws rest) with
        | Some r => Some (JObject [], r)
        | None =>
          match parse_members fuel (skip_ws rest) with
          | Some (ms, r) => Some (JObject ms, r)
          | None => None
          end
        end
      else if c =? ch "[" then
        match expect (ch "]") (skip_ws rest) with
        | Some r => Some (JArray [], r)
        | None =>
          match parse_elements fuel (skip_ws rest) with
          | Some (vs, r) => Some (JArray vs, r)
          | None => None
          end
        end
      else if c =? DQUOTE then
        match parse_string_body rest with
        | Some (str, r) => Some (JString str, r)
        | None => None
        end
      else if c =? ch "t" then
        match strip_prefix (js "true") s with
        | Some r => Some (JBool true, r)
        | None => None
        end
      else if c =? ch "f" then
        match strip_prefix (js "false") s with
        | Some r => Some (JBool false, r)
        | None => None
        end
      else if c =? ch "n" then
        match strip_prefix (js "null") s with
        | Some r => Some (JNull, r)
        | None => None
        end
      else
        match parse_number s with
        | Some (lexeme, r) => Some (JNumber lexeme, r)
        | None => None
        end
    end
  end
with parse_members (fuel : nat) (s : jsstring) {struct fuel}
  : option (list (jsstring * json) * jsstring) :=
  match fuel with
  | O => None
  | S fuel =>
    match expect DQUOTE s with
    | None => None
    | Some r1 =>
      match parse_string_body r1 with
      | None => None
      | Some (k, r2) =>
        match expect (ch ":") (skip_ws r2) with
        | None => None
        | Some r3 =>
          match parse_value fuel (skip_ws r3) with
          | None => None
          | Some (v, r4) =>
            match skip_ws r4 with
            | [] => None
            | c :: r5 =>
              if c =? ch "," then
                match parse_members fuel (skip_ws r5) with
                | Some (ms, r6) => Some ((k, v) :: ms, r6)
                | None => None
                end
              else if c =? ch "}" then Some ([(k, v)], r5)
              else None
            end
          end
        end
      end
    end
  end
with parse_elements (fuel : nat) (s : jsstring) {struct fuel}
  : option (list json * jsstring) :=
  match fuel with
  | O => None
  | S fuel =>
    match parse_value fuel s with
    | None => None
    | Some (v, r1) =>
      match skip_ws r1 with
      | [] => None
      | c :: r2 =>
        if c =? ch "," then
          match parse_elements fuel (skip_ws r2) with
          | Some (vs, r3) => Some (v :: vs, r3)
          | None => None
          end
        else if c =? ch "]" then Some ([v], r2)
        else None
      end
    end
  end.

(** [JSON.parse]: one value between optional white space; [None] is the
    SyntaxError. *)
Definition JSON_parse (text : jsstring) : option json :=
  match parse_value (S (2 * length text)) (skip_ws text) with
  | Some (v, r) =>
    match skip_ws r with
    | [] => Some v
    | _ :: _ => None
    end
  | None => None
  end.


(** ** Note entries *)

Record NoteEntry : Type := mkNoteEntry {
  id : jsstring;
  timestamp : jsstring;
  text : jsstring;
  file : option jsstring;
  kind : option jsstring
}.

(** Property read [record.k] on a parsed value ([None] is [undefined]).
    [JSON.parse] keeps the last of duplicate keys; an array has none of the
    properties read here. *)
Fixpoint get_own (props : list (jsstring * json)) (k : jsstring) : option json :=
  match props with
  | [] => None
  | (k', v) :: rest =>
    match get_own rest k with
    | Some v' => Some v'
    | None => if jsstring_eqb k' k then Some v else None
    end
  end.

Definition Get (value : json) (k : jsstring) : option json :=
  match value with
  | JObject props => get_own props k
  | _ => None
  end.

Definition typeof (v : option json) : jsstring :=
  match v with
  | None => js "undefined"
  | Some JNull => js "object"
  | Some (JBool _) => js "boolean"
  | Some (JNumber _) => js "number"
  | Some (JString _) => js "string"
  | Some (JArray _) => js "object"
  | Some (JObject _) => js "object"
  end.

Definition is_null (v : json) : bool :=
  match v with JNull => true | _ => false end.

(** [isNoteEntry].  In [!value || typeof value !== "object"], of the values
    [JSON.parse] returns only [null] is falsy with typeof "object"; the other
    falsy ones (0, the empty string, false) already fail the typeof test. *)
Definition isNoteEntry (value : json) : bool :=
  if is_null value || negb (jsstring_eqb (typeof (Some value)) (js "object")) then false
  else if negb (jsstring_eqb (typeof (Get value (js "id"))) (js "string")) then false
  else if negb (jsstring_eqb (typeof (Get value (js "timestamp"))) (js "string")) then false
  else if negb (jsstring_eqb (typeof (Get value (js "text"))) (js "string")) then false
  else if negb (jsstring_eqb (typeof (Get value (js "file"))) (js "undefined"))
          && negb (jsstring_eqb (typeof (Get value (js "file"))) (js "string")) then false
  else if negb (jsstring_eqb (typeof (Get value (js "kind"))) (js "undefined"))
          && negb (jsstring_eqb (typeof (Get value (js "kind"))) (js "string")) then false
  else true.

Definition string_prop (value : json) (k : jsstring) : option jsstring :=
  match Get value k with
  | Some (JString s) => Some s
  | _ => None
  end.

(** The view [value is NoteEntry] gives of a value that passed
    [isNoteEntry]: the five properties the rest of the program reads. *)
Definition asNoteEntry (value : json) : NoteEntry :=
  {| id := default [] (string_prop value (js "id"));
     timestamp := default [] (string_prop value (js "timestamp"));
     text := default [] (string_prop value (js "text"));
     file := string_prop value (js "file");
     kind := string_prop value (js "kind") |}.

(** [JSON.stringify(entry)] for the object [makeEntry] builds: its five
    properties in creation order, [file] and [kind] possibly undefined. *)
Definition JSON_stringify (entry : NoteEntry) : jsstring :=
  JSON_stringify_record
    [(js "id", Some (id entry)); (js "timestamp", Some (timestamp entry));
     (js "text", Some (text entry)); (js "file", file entry); (js "kind", kind entry)].

(** ** The platform: [node:path], [node:os] *)

Class Platform : Type := {
  os_homedir : jsstring;
  path_join : list jsstring -> jsstring;
  path_resolve : list jsstring -> jsstring;
  path_dirname : jsstring -> jsstring;
  path_isAbsolute : jsstring -> bool;
  (** [path.resolve] always yields an absolute path. *)
  path_resolve_isAbsolute : forall args, path_isAbsolute (path_resolve args) = true
}.

(** *** The POSIX implementation of [node:path] *)

Definition SLASH : N := 47.

Definition push_char (c : N) (lines : list jsstring) : list jsstring :=
  match lines with
  | line :: lines' => (c :: line) :: lines'
  | [] => [[c]]
  end.

Fixpoint split_on (sep : N) (s : jsstring) : list jsstring :=
  match s with
  | [] => [[]]
  | c :: rest => if c =? sep then [] :: split_on sep rest else push_char c (split_on sep rest)
  end.

(** One segment of [normalizeString], on the stack of segments kept so far
    (last first): empty and [.] segments are dropped, [..] removes the
    segment before it, or stays when there is none and the path is
    relative. *)
Definition normalize_step (allowAboveRoot : bool) (stack : list jsstring) (seg : jsstring)
  : list jsstring :=
  if jsstring_eqb seg [] || jsstring_eqb seg (js ".") then stack
  else if jsstring_eqb seg (js "..") then
    match stack with
    | top :: below =>
      if jsstring_eqb top (js "..") then (if allowAboveRoot then seg :: stack else stack)
      else below
    | [] => if allowAboveRoot then [seg] else []
    end
  else seg :: stack.

Definition normalizeString (path : jsstring) (allowAboveRoot : bool) : jsstring :=
  join [SLASH] (rev (fold_left (normalize_step allowAboveRoot) (split_on SLASH path) [])).

Definition posix_isAbsolute (path : jsstring) : bool :=
  match path with
  | c :: _ => c =? SLASH
  | [] => false
  end.

(** The loop of [posix.resolve], over the arguments from the last to the
    first and then the working directory, until an absolute one. *)
Fixpoint resolve_loop (cwd : jsstring) (rargs : list jsstring) (resolvedPath : jsstring)
  : jsstring * bool :=
  match rargs with
  | [] =>
    match cwd with
    | [] => (resolvedPath, false)
    | _ :: _ => (cwd ++ SLASH :: resolvedPath, posix_isAbsolute cwd)
    end
  | path :: more =>
    match path with
    | [] => resolve_loop cwd more resolvedPath
    | _ :: _ =>
      if posix_isAbsolute path then (path ++ SLASH :: resolvedPath, true)
      else resolve_loop cwd more (path ++ SLASH :: resolvedPath)
    end
  end.

Definition posix_resolve (cwd : jsstring) (args : list jsstring) : jsstring :=
  let '(resolvedPath, resolvedAbsolute) := resolve_loop cwd (rev args) [] in
  let resolvedPath := normalizeString resolvedPath (negb resolvedAbsolute) in
  if resolvedAbsolute then SLASH :: resolvedPath
  else match resolvedPath with [] => js "." | _ :: _ => resolvedPath end.

Definition posix_normalize (path : jsstring) : jsstring :=
  match path with
  | [] => js "."
  | _ :: _ =>
    let isAbsolute := posix_isAbsolute path in
    let trailingSeparator := match last path with Some c => c =? SLASH | None => false end in
    match normalizeString path (negb isAbsolute) with
    | [] => if isAbsolute then js "/" else if trailingSeparator then js "./" else js "."
    | (_ :: _) as path' =>
      let path' := if trailingSeparator then path' ++ [SLASH] else path' in
      if isAbsolute then SLASH :: path' else path'
    end
  end.

Definition posix_join (args : list jsstring) : jsstring :=
  match List.filter (fun arg => negb (jsstring_eqb arg [])) args with
  | [] => js "."
  | parts => posix_normalize (join [SLASH] parts)
  end.

(** The scan of [posix.dirname] from the end of the path down to index 1,
    on the reversed tail: what is left before the separator that ends the
    directory part. *)
Fixpoint dirname_scan (r : jsstring) (matchedSlash : bool) : option jsstring :=
  match r with
  | [] => None
  | c :: r' =>
    if c =? SLASH then (if matchedSlash then dirname_scan r' true else Some r')
    else dirname_scan r' false
  end.

Definition posix_dirname (path : jsstring) : jsstring :=
  match path with
  | [] => js "."
  | c0 :: tail =>
    let hasRoot := c0 =? SLASH in
    match dirname_scan (rev tail) true with
    | None => if hasRoot then js "/" else js "."
    | Some [] => if hasRoot then js "//" else [c0]
    | Some r => c0 :: rev r
    end
  end.

(** A POSIX process with the given home and working directories. *)
Program Definition posix (home cwd : jsstring) (Hcwd : posix_isAbsolute cwd = true)
  : Platform :=
  {| os_homedir := home;
     path_join := posix_join;
     path_resolve := posix_resolve cwd;
     path_dirname := posix_dirname;
     path_isAbsolute := posix_isAbsolute |}.
Next Obligation.
  intros home cwd Hcwd args. unfold posix_resolve.
  assert (forall rargs acc, snd (resolve_loop cwd rargs acc) = true) as Habs.
  { induction rargs as [|p more IH]; intros acc; simpl.
    - destruct cwd; [discriminate | exact Hcwd].
    - destruct p as [|c p']; [apply IH |].
      destruct (posix_isAbsolute (c :: p')); [reflexivity | apply IH]. }
  specialize (Habs (rev args) []).
  destruct (resolve_loop cwd (rev args) []) as [p b]. simpl in Habs. subst b.
  reflexivity.
Qed.

(** ** The file system and the effects of the program *)

Record ErrnoException : Type := mkErrno {
  errno_code : jsstring;
  errno_message : jsstring
}.

(** What is at a path: a regular file with the text a utf8 read returns, or
    something whose access fails with the given error (a directory, a file
    without permission, ...).  A path not in the map does not exist. *)
Inductive node : Type :=
| File (content : jsstring)
| Faulty (e : ErrnoException).

Abbreviation World := (gmap jsstring node).

Inductive exn : Type :=
| ErrnoError (e : ErrnoException)
| JsError (message : jsstring).

Inductive outcome (A : Type) : Type :=
| Returned (a : A)
| Thrown (e : exn).
Arguments Returned {A} a.
Arguments Thrown {A} e.

(** An async function of the program: it runs to completion from a state of
    the file system, and returns or throws. *)
Definition M (A : Type) : Type := World -> World * outcome A.

Definition ret {A} (a : A) : M A := fun w => (w, Returned a).
Definition throw {A} (e : exn) : M A := fun w => (w, Thrown e).
Definition bind {A B} (m : M A) (k : A -> M B) : M B :=
  fun w =>
    match m w with
    | (w', Returned a) => k a w'
    | (w', Thrown e) => (w', Thrown e)
    end.
Definition try_catch {A} (m : M A) (handler : exn -> M A) : M A :=
  fun w =>
    match m w with
    | (w', Returned a) => (w', Returned a)
    | (w', Thrown e) => handler e w'
    end.

Notation "'await' x <- m ;; k" := (bind m (fun x => k))
  (at level 10, x name, m at level 99, k at level 200).
Notation "'wait' m ;; k" := (bind m (fun _ => k))
  (at level 10, m at level 99, k at level 200).

Definition ENOENT (path : jsstring) : ErrnoException :=
  {| errno_code := js "ENOENT";
     errno_message := js "ENOENT: no such file or directory, open '" ++ path ++ js "'" |}.

(** [fs.readFile(path, "utf8")]. *)
Definition fs_readFile (path : jsstring) : M jsstring :=
  fun w =>
    match w !! path with
    | None => (w, Thrown (ErrnoError (ENOENT path)))
    | Some (File content) => (w, Returned content)
    | Some (Faulty e) => (w, Thrown (ErrnoError e))
    end.

(** [fs.appendFile(path, data, "utf8")]: creates the file when it does not
    exist, extends it otherwise. *)
Definition fs_appendFile (path data : jsstring) : M unit :=
  fun w =>
    match w !! path with
    | None => (<[path := File (utf8_roundtrip data)]> w, Returned tt)
    | Some (File content) => (<[path := File (content ++ utf8_roundtrip data)]> w, Returned tt)
    | Some (Faulty e) => (w, Thrown (ErrnoError e))
    end.

(** [fs.mkdir(dir, { recursive: true, mode: 0o700 })].  Directories are not
    part of the state: creating one changes no file. *)
Definition fs_mkdir_recursive (dir : jsstring) : M unit := ret tt.

(** ** The store *)

Section Store.
Context `{Platform}.

Definition DEFAULT_STORE_PATH : jsstring :=
  path_join [os_homedir; js ".threadkeeper"; js "notes.jsonl"].

(** [resolveStorePath], from the environment of the process.  [!override]
    holds for an unset variable and for the empty string. *)
Definition resolveStorePath (env : gmap jsstring jsstring) : jsstring :=
  match env !! js "THREADKEEPER_STORE_PATH" with
  | None => DEFAULT_STORE_PATH
  | Some [] => DEFAULT_STORE_PATH
  | Some override => path_resolve [override]
  end.

Definition ensureStoreDir (storePath : jsstring) : M unit :=
  fs_mkdir_recursive (path_dirname storePath).

(** [text.split(/\r?\n/)]: a line ends at LF, or at CR LF as a whole; the
    result has one more line than there are line ends. *)
Fixpoint split_lines (text : jsstring) : list jsstring :=
  match text with
  | [] => [[]]
  | c :: rest =>
    if c =? LF then [] :: split_lines rest
    else
      match rest with
      | d :: rest' =>
        if (c =? CR) && (d =? LF) then [] :: split_lines rest'
        else push_char c (split_lines rest)
      | [] => [[c]]
      end
  end.

(** One turn of the loop body of [loadEntries] on a non-empty line that is
    the [i]-th of the file (from 0): the entry, or the error thrown. *)
Definition decode_line (i : nat) (line : jsstring) : outcome NoteEntry :=
  match JSON_parse line with
  | None =>
    Thrown (JsError (js "Invalid note store format at line " ++ decimal (i + 1) ++ js "."))
  | Some parsed =>
    if negb (isNoteEntry parsed) then
      Thrown (JsError (js "Invalid note entry at line " ++ decimal (i + 1) ++ js "."))
    else Returned (asNoteEntry parsed)
  end.

(** The [for] loop of [loadEntries], from index [i] with [entries]
    collected so far. *)
Fixpoint load_loop (i : nat) (lines : list jsstring) (entries : list NoteEntry)
  : outcome (list NoteEntry) :=
  match lines with
  | [] => Returned entries
  | line :: rest =>
    if jsstring_eqb line [] then load_loop (S i) rest entries
    else
      match decode_line i line with
      | Thrown e => Thrown e
      | Returned parsed => load_loop (S i) rest (entries ++ [parsed])
      end
  end.

Definition is_ENOENT (error : exn) : bool :=
  match error with
  | ErrnoError e => jsstring_eqb (errno_code e) (js "ENOENT")
  | JsError _ => false
  end.

Definition lift {A} (o : outcome A) : M A := fun w => (w, o).

(** [loadEntries]: the [return []] of the catch clause is the [None] that
    skips the loop. *)
Definition loadEntries (storePath : jsstring) : M (list NoteEntry) :=
  await read <-
    try_catch (await text <- fs_readFile storePath ;; ret (Some text))
              (fun error => if is_ENOENT error then ret None else throw error) ;;
  match read with
  | None => ret []
  | Some text => lift (load_loop 0 (split_lines text) [])
  end.

Definition appendEntry (storePath : jsstring) (entry : NoteEntry) : M unit :=
  wait ensureStoreDir storePath ;;
  fs_appendFile storePath (JSON_stringify entry ++ [LF]).

(** What one call draws from outside the program: the value of
    [crypto.randomUUID()] and of [new Date().toISOString()]. *)
Record Drawn : Type := mkDrawn {
  randomUUID : jsstring;
  now_toISOString : jsstring
}.

Definition makeEntry (d : Drawn) (text : jsstring) (file timestamp kind : option jsstring)
  : NoteEntry :=
  {| id := randomUUID d;
     timestamp := default (now_toISOString d) timestamp;
     text := text;
     file := file;
     kind := kind |}.

(** Truthiness of an optional string: [undefined] and the empty string are
    falsy. *)
Definition truthy (s : option jsstring) : bool :=
  match s with
  | Some (_ :: _) => true
  | _ => false
  end.

Definition formatEntry (entry : NoteEntry) : jsstring :=
  let lines := [js "id: " ++ id entry; js "timestamp: " ++ timestamp entry] in
  let lines :=
    if truthy (kind entry) then lines ++ [js "kind: " ++ default [] (kind entry)] else lines in
  let lines :=
    if truthy (file entry) then lines ++ [js "file: " ++ default [] (file entry)] else lines in
  let lines := lines ++ [js "text:"] in
  let lines := lines ++ [text entry] in
  join [LF] lines.

Definition formatEntries (entries : list NoteEntry) (emptyMessage : jsstring) : jsstring :=
  if (length entries =? 0)%nat then emptyMessage
  else join [LF; LF] (List.map formatEntry entries).

(** ** The tools *)

Record ContentItem : Type := mkContent {
  content_type : jsstring;
  content_text : jsstring
}.

(** A tool result; a result without [isError] has it [false]. *)
Record ToolResult : Type := mkResult {
  isError : bool;
  content : list ContentItem
}.

Definition text_result (t : jsstring) : ToolResult :=
  {| isError := false; content := [ {| content_type := js "text"; content_text := t |} ] |}.

Definition error_result (t : jsstring) : ToolResult :=
  {| isError := true; content := [ {| content_type := js "text"; content_text := t |} ] |}.

Definition REFUSAL : jsstring :=
  js "Refusing to store unapproved text. Ask the user to confirm verbatim text before storing.".

Definition notes_store (storePath : jsstring) (d : Drawn)
    (text : jsstring) (approved : bool) (file timestamp kind : option jsstring)
  : M ToolResult :=
  if negb approved then ret (error_result REFUSAL)
  else
    let entry := makeEntry d text file timestamp kind in
    wait appendEntry storePath entry ;;
    ret (text_result (js "Stored note " ++ id entry ++ js ".")).

Definition notes_list (storePath : jsstring) : M ToolResult :=
  await entries <- loadEntries storePath ;;
  ret (text_result (formatEntries entries (js "No notes stored."))).

Definition kind_is (k : jsstring) (entry : NoteEntry) : bool :=
  match kind entry with
  | Some k' => jsstring_eqb k' k
  | None => false
  end.

Definition notes_list_kind (storePath : jsstring) (kind : jsstring) : M ToolResult :=
  await entries <- loadEntries storePath ;;
  let matches := List.filter (kind_is kind) entries in
  ret (text_result (formatEntries matches (js "No notes found for kind " ++ kind ++ js "."))).

Definition notes_get (storePath : jsstring) (id' : jsstring) : M ToolResult :=
  await entries <- loadEntries storePath ;;
  match List.find (fun item => jsstring_eqb (id item) id') entries with
  | None => ret (error_result (js "No note found for id " ++ id' ++ js "."))
  | Some entry => ret (text_result (formatEntry entry))
  end.

Definition notes_find (storePath : jsstring) (contains : jsstring) : M ToolResult :=
  await entries <- loadEntries storePath ;;
  let matches := List.filter (fun entry => includes (text entry) contains) entries in
  ret (text_result (formatEntries matches (js "No notes matched the exact substring."))).

Definition teach_request (storePath : jsstring) (d : Drawn)
    (question : jsstring) (approved : bool) (file timestamp : option jsstring)
  : M ToolResult :=
  if negb approved then ret (error_result REFUSAL)
  else
    let entry := makeEntry d question file timestamp (Some (js "teach.request")) in
    wait appendEntry storePath entry ;;
    ret (text_result (formatEntry entry)).

Definition teach_note (storePath : jsstring) (d : Drawn)
    (text : jsstring) (approved : bool) (file timestamp : option jsstring)
  : M ToolResult :=
  if negb approved then ret (error_result REFUSAL)
  else
    let entry := makeEntry d text file timestamp (Some (js "teach.note")) in
    wait appendEntry storePath entry ;;
    ret (text_result (formatEntry entry)).

Definition questions_ask (question : jsstring) : M ToolResult :=
  ret (text_result question).

Definition teach_ask (question : jsstring) : M ToolResult :=
  ret (text_result question).

End Store.

(** ** Notions the properties are stated with *)

(** [append] called once per entry of a list, in order. *)
Fixpoint append_all `{Platform} (storePath : jsstring) (entries : list NoteEntry) : M unit :=
  match entries with
  | [] => ret tt
  | entry :: rest => wait appendEntry storePath entry ;; append_all storePath rest
  end.

(** The text of one member [key:value] whose value is a string, and the
    property it parses to. *)
Definition member_text (kv : jsstring * jsstring) : jsstring :=
  QuoteJSONString (fst kv) ++ ch ":" :: QuoteJSONString (snd kv).

Definition string_member (kv : jsstring * jsstring) : jsstring * json :=
  (fst kv, JString (snd kv)).

(** The properties of an entry that are written: the undefined ones are
    left out. *)
Definition entry_members (e : NoteEntry) : list (jsstring * jsstring) :=
  [(js "id", id e); (js "timestamp", timestamp e); (js "text", text e)]
  ++ match file e with Some f => [(js "file", f)] | None => [] end
  ++ match kind e with Some k => [(js "kind", k)] | None => [] end.

(** The lines [entries] are stored as. *)
Definition store_text (entries : list NoteEntry) : jsstring :=
  concat (List.map (fun e => JSON_stringify e ++ [LF]) entries).

(** Well-formed UTF-16: every surrogate is half of a pair. *)
Inductive well_formed : jsstring -> Prop :=
| wf_nil : well_formed []
| wf_unit c s :
    is_high_surrogate c = false -> is_low_surrogate c = false ->
    well_formed s -> well_formed (c :: s)
| wf_pair c d s :
    is_high_surrogate c = true -> is_low_surrogate d = true ->
    well_formed s -> well_formed (c :: d :: s).

(** No control character, so no line end. *)
Definition printable (s : jsstring) : Prop := Forall (fun c => 32 <= c) s.

Definition plain_ascii (s : jsstring) : bool :=
  forallb (fun c => (32 <=? c) && (c <? 128)) s.

(** A record as the data model has it: an object whose [id], [timestamp]
    and [text] are strings and whose [file] and [kind] are strings or
    absent. *)
Definition is_string (v : option json) : Prop := exists s, v = Some (JString s).

Definition valid_record (v : json) : Prop :=
  (exists props, v = JObject props) /\
  is_string (Get v (js "id")) /\ is_string (Get v (js "timestamp")) /\
  is_string (Get v (js "text")) /\
  (Get v (js "file") = None \/ is_string (Get v (js "file"))) /\
  (Get v (js "kind") = None \/ is_string (Get v (js "kind"))).

(** A line that fails to decode: it is not JSON text, or the value is not a
    record. *)
Definition malformed (line : jsstring) : Prop :=
  forall v, JSON_parse line = Some v -> ~ valid_record v.

(** The text of the file at a path, empty when there is none. *)
Definition file_text (w : World) (path : jsstring) : jsstring :=
  match w !! path with
  | Some (File content) => content
  | _ => []
  end.

(** [needle] occurs in [s]. *)
Definition occurs (needle s : jsstring) : Prop :=
  exists pre post, s = pre ++ needle ++ post.

(** [result] is [entries] with exactly the entries that satisfy [P] kept,
    in the same order and as many times. *)
Inductive keeps_exactly {A} (P : A -> Prop) : list A -> list A -> Prop :=
| keeps_nil : keeps_exactly P [] []
| keeps_take x l r : P x -> keeps_exactly P l r -> keeps_exactly P (x :: l) (x :: r)
| keeps_skip x l r : ~ P x -> keeps_exactly P l r -> keeps_exactly P (x :: l) r.

(** The rendering of one entry as the specification words it: a kind line
    whenever kind is present, a file line whenever file is present. *)
Definition formatOne_as_specified (entry : NoteEntry) : jsstring :=
  join [LF]
    ([js "id: " ++ id entry; js "timestamp: " ++ timestamp entry]
     ++ match kind entry with Some k => [js "kind: " ++ k] | None => [] end
     ++ match file entry with Some f => [js "file: " ++ f] | None => [] end
     ++ [js "text:"; text entry]).

(** The rendering as the code does it: the kind and file lines are there
    for a non-empty kind and a non-empty file. *)
Definition optional_line (label : jsstring) (value : option jsstring) : list jsstring :=
  match value with
  | Some (c :: s) => [label ++ c :: s]
  | _ => []
  end.

Definition entry_lines (entry : NoteEntry) : list jsstring :=
  [js "id: " ++ id entry; js "timestamp: " ++ timestamp entry]
  ++ optional_line (js "kind: ") (kind entry)
  ++ optional_line (js "file: ") (file entry)
  ++ [js "text:"; text entry].

(** ** Notions for the further properties *)

(** The end of a stored line: LF, or CR LF. *)
Definition line_end (crlf : bool) : jsstring := if crlf then [CR; LF] else [LF].

(** A line of a store file: an encoded entry or nothing, and its end. *)
Definition stored_line (item : option NoteEntry * bool) : jsstring :=
  match fst item with Some e => JSON_stringify e | None => [] end ++ line_end (snd item).

Definition option_list {A} (o : option A) : list A :=
  match o with Some a => [a] | None => [] end.

(** The lines of a text followed by another: the last line of the first
    and the first line of the second are one line. *)
Definition glue_lines (ls1 ls2 : list jsstring) : list jsstring :=
  match ls2 with
  | [] => ls1
  | l0 :: ls => removelast ls1 ++ (List.last ls1 [] ++ l0) :: ls
  end.

(** The store is absent or a regular file. *)
Definition usable (w : World) (path : jsstring) : Prop :=
  forall e, w !! path <> Some (Faulty e).

(** ** Start-up: package information, contract, prompt *)

Record PackageInfo : Type := mkPackageInfo {
  name : json;
  version : json
}.

Record ServerSetup : Type := mkServerSetup {
  serverInfo : PackageInfo;
  serverOptions : option jsstring
}.

Section StartUp.
Context `{Platform}.

(** The directory of the running module,
    [fileURLToPath(new URL(".", import.meta.url))]. *)
Variable moduleDir : jsstring.

(** The truth value of a parsed number: false for zero, which the text of
    the number decides through its conversion to a double. *)
Variable number_truthy : jsstring -> bool.

Definition ToBoolean (v : option json) : bool :=
  match v with
  | None => false
  | Some JNull => false
  | Some (JBool b) => b
  | Some (JNumber lexeme) => number_truthy lexeme
  | Some (JString s) => negb (jsstring_eqb s [])
  | Some (JArray _) => true
  | Some (JObject _) => true
  end.

(** [data.k] for the keys read at start-up, [name] and [version]: a
    TypeError on [null], the own property of an object, and no such
    property on an array, a string, a number or a boolean. *)
Definition read_property (data : json) (k : jsstring) : outcome (option json) :=
  match data with
  | JNull => Thrown (JsError (js "Cannot read properties of null (reading '" ++ k ++ js "')"))
  | JObject props => Returned (get_own props k)
  | _ => Returned None
  end.

(** [x || fallback]. *)
Definition or_else (x : option json) (fallback : json) : json :=
  if ToBoolean x then default fallback x else fallback.

Definition packageRoot : jsstring := path_resolve [moduleDir; js ".."].

Definition DEFAULT_INFO : PackageInfo :=
  {| name := JString (js "threadkeeper-mcp"); version := JString (js "0.0.0") |}.

Definition readPackageInfo : M PackageInfo :=
  let packageJsonPath := path_join [packageRoot; js "package.json"] in
  try_catch
    (await raw <- fs_readFile packageJsonPath ;;
     await data <- lift (match JSON_parse raw with
                         | Some data => Returned data
                         | None => Thrown (JsError (js "SyntaxError"))
                         end) ;;
     await name' <- lift (read_property data (js "name")) ;;
     await version' <- lift (read_property data (js "version")) ;;
     ret {| name := or_else name' (JString (js "threadkeeper-mcp"));
            version := or_else version' (JString (js "0.0.0")) |})
    (fun _ => ret DEFAULT_INFO).

Definition readContract : M (option jsstring) :=
  let contractPath := path_join [packageRoot; js "AGENTS.md"] in
  try_catch (await text <- fs_readFile contractPath ;; ret (Some text))
            (fun _ => ret None).

(** The first statements of [main]: what the server is constructed with,
    [instructions ? { instructions } : undefined] being its options. *)
Definition main_setup : M ServerSetup :=
  await info <- readPackageInfo ;;
  await instructions <- readContract ;;
  ret {| serverInfo := info;
         serverOptions := if truthy instructions then instructions else None |}.

End StartUp.

Record PromptMessage : Type := mkPromptMessage {
  role : jsstring;
  message_content : ContentItem
}.

Record PromptResult : Type := mkPromptResult {
  description : jsstring;
  messages : list PromptMessage
}.

Definition teach_scope_lines (topic : option jsstring) : list jsstring :=
  let lead :=
    if truthy topic then js "You asked about " ++ default [] topic ++ js "."
    else js "You asked for teaching." in
  [lead;
   [];
   js "Before I explain, please confirm:";
   js "- The specific file(s) or snippet to focus on";
   js "- What you want to understand (behavior, structure, or intent)";
   js "- Desired depth (overview or line-by-line)";
   js "- Whether you want suggested changes or just explanation"].

(** The [teach.scope] prompt. *)
Definition teach_scope (topic : option jsstring) : PromptResult :=
  let text := join [LF] (teach_scope_lines topic) in
  {| description := js "Teaching scope questions";
     messages := [ {| role := js "assistant";
                      message_content := {| content_type := js "text"; content_text := text |} |} ] |}.

(** ** A concrete process and store, for worked instances *)

Definition linux : Platform := posix (js "/home/u") (js "/work") eq_refl.

Definition store : jsstring := js "/home/u/.threadkeeper/notes.jsonl".

Definition STORE_PATH_VARIABLE : jsstring := js "THREADKEEPER_STORE_PATH".

Definition drawn1 : Drawn :=
  {| randomUUID := js "3b241101-e2bb-4255-8caf-4136c566a962";
     now_toISOString := js "2026-01-01T00:00:00.000Z" |}.

Definition note1 : NoteEntry :=
  makeEntry drawn1 (js "use explicit types") None None (Some (js "teach.note")).

(** A text with a line feed, a quote, a surrogate pair and a lone
    surrogate. *)
Definition note2 : NoteEntry :=
  {| id := js "n2"; timestamp := js "2026-01-02T00:00:00.000Z";
     text := js "first line" ++ [LF] ++ js "second " ++ [DQUOTE; 55357; 56832; 56832];
     file := Some (js "src/index.ts"); kind := None |}.

Definition note3 : NoteEntry :=
  {| id := js "n3"; timestamp := js "t3"; text := js "Use Explicit Types";
     file := None; kind := Some (js "Teach.note") |}.

(** An entry as [notes.store] makes it when called with an empty kind. *)
Definition note_empty_kind : NoteEntry :=
  makeEntry drawn1 (js "x") None None (Some []).

Definition stored (content : jsstring) : World := {[ store := File content ]}.

Definition wrong_type_line : jsstring :=
  jsq "{'id':'a','timestamp':'t','text':'x','file':1}".

Definition bad_content : jsstring :=
  JSON_stringify note1 ++ [CR; LF; LF] ++ wrong_type_line ++ [LF] ++ js "not json" ++ [LF].

Definition eacces : ErrnoException :=
  {| errno_code := js "EACCES"; errno_message := js "EACCES: permission denied" |}.

(** ** More concrete data, for worked instances *)

Definition drawn2 : Drawn :=
  {| randomUUID := js "n2"; now_toISOString := js "2026-02-02T00:00:00.000Z" |}.

Definition mixed_items : list (option NoteEntry * bool) :=
  [(Some note1, true); (None, false); (Some note2, false); (None, true)].

Definition package_json_path : jsstring := js "/opt/threadkeeper/package.json".

Definition contract_path : jsstring := js "/opt/threadkeeper/AGENTS.md".

Definition package_json : jsstring :=
  jsq "{ 'name': '@tac0de/threadkeeper-mcp', 'version': '', 'private': true }".

Definition installed : World :=
  {[ package_json_path := File package_json; contract_path := File (js "Ask first.") ]}.

(** Zero as a JSON number is written with zero digits only; enough of
    [number_truthy] for the instances. *)
Definition digits_nonzero (lexeme : jsstring) : bool :=
  existsb (fun c => (49 <=? c) && (c <=? 57)) lexeme.

Definition module_dir : jsstring := js "/opt/threadkeeper/dist".

Definition unterminated : World := stored (JSON_stringify note1).

Definition mixed_content : jsstring :=
  concat (List.map stored_line mixed_items) ++ JSON_stringify note3.

(** * Properties *)

(** ** Strings *)

Lemma jsstring_eqb_eq a b : jsstring_eqb a b = true <-> a = b.
Proof.
  revert b. induction a as [|x a IH]; intros [|y b]; simpl; try (split; intro; congruence).
  rewrite andb_true_iff, N.eqb_eq, IH. split; [intros [-> ->]; reflexivity | intros [= -> ->]; auto].
Qed.

Lemma startsWith_spec s needle : startsWith s needle = true <-> exists post, s = needle ++ post.
Proof.
  revert s. induction needle as [|n needle IH]; intros s.
  - destruct s; simpl; split; eauto.
  - destruct s as [|c s]; simpl.
    + split; [discriminate | intros [post [=]]].
    + rewrite andb_true_iff, N.eqb_eq, IH. split.
      * intros [-> [post ->]]. eauto.
      * intros [post [= -> ->]]. eauto.
Qed.

Lemma includes_spec s needle : includes s needle = true <-> occurs needle s.
Proof.
  unfold occurs. induction s as [|c s IH].
  - cbn [includes]. rewrite orb_false_r, startsWith_spec. split.
    + intros [post ->]. exists [], post. reflexivity.
    + intros (pre & post & Heq). destruct pre; [eauto |discriminate].
  - cbn [includes]. rewrite orb_true_iff, startsWith_spec, IH. split.
    + intros [[post ->] | (pre & post & ->)].
      * exists [], post. reflexivity.
      * exists (c :: pre), post. reflexivity.
    + intros (pre & post & Heq). destruct pre as [|c' pre].
      * left. exists post. exact Heq.
      * right. injection Heq as -> ->. eauto.
Qed.

Lemma split_on_part sep l rest :
  ~ In sep l -> split_on sep (l ++ sep :: rest) = l :: split_on sep rest.
Proof.
  induction l as [|c l IH]; intros Hl.
  - simpl. rewrite N.eqb_refl. reflexivity.
  - simpl. destruct (N.eqb_spec c sep) as [->|_]; [exfalso; apply Hl; left; reflexivity |].
    rewrite IH; [reflexivity |]. intros Hin. apply Hl. right. exact Hin.
Qed.

Lemma split_on_last sep l : ~ In sep l -> split_on sep l = [l].
Proof.
  induction l as [|c l IH]; intros Hl; [reflexivity |].
  simpl. destruct (N.eqb_spec c sep) as [->|_]; [exfalso; apply Hl; left; reflexivity |].
  rewrite IH; [reflexivity |]. intros Hin. apply Hl. right. exact Hin.
Qed.

Lemma split_on_join sep parts :
  parts <> [] -> List.Forall (fun p => ~ In sep p) parts ->
  split_on sep (join [sep] parts) = parts.
Proof.
  intros Hne Hall. induction Hall as [|p parts Hp Hparts IH]; [congruence |].
  destruct parts as [|p' parts].
  - simpl. apply split_on_last. exact Hp.
  - change (join [sep] (p :: p' :: parts)) with (p ++ sep :: join [sep] (p' :: parts)).
    rewrite split_on_part by exact Hp. rewrite IH by discriminate. reflexivity.
Qed.

Lemma plain_ascii_no_LF s : plain_ascii s = true -> ~ In LF s.
Proof.
  induction s as [|c s IH]; simpl; [tauto |].
  rewrite !andb_true_iff, N.leb_le. intros [[Hc _] Hs] [->|Hin]; [unfold LF in Hc; lia | tauto].
Qed.

Lemma no_LF_labelled label s : plain_ascii label = true -> ~ In LF s -> ~ In LF (label ++ s).
Proof.
  intros Hl Hs Hin. apply in_app_or in Hin as [Hin|Hin]; [| tauto].
  exact (plain_ascii_no_LF label Hl Hin).
Qed.

Lemma join_last2 sep (l : list jsstring) a b :
  exists head, join sep (l ++ [a; b]) = head ++ a ++ sep ++ b.
Proof.
  induction l as [|x l [head IH]].
  - exists []. reflexivity.
  - exists (x ++ sep ++ head).
    change (join sep ((x :: l) ++ [a; b])) with (join sep (x :: (l ++ [a; b]))).
    destruct (l ++ [a; b]) as [|y r] eqn:Hl; [destruct l; discriminate |].
    change (join sep (x :: y :: r)) with (x ++ sep ++ join sep (y :: r)).
    rewrite IH, <- !app_assoc. reflexivity.
Qed.

Lemma hex_value_digit n : n < 16 -> hex_value (hex_digit n) = Some n.
Proof.
  intros Hn. unfold hex_digit, hex_value.
  destruct (N.ltb_spec n 10).
  - replace ((48 <=? 48 + n) && (48 + n <=? 57)) with true.
    + f_equal. lia.
    + symmetry. apply andb_true_iff. split; apply N.leb_le; lia.
  - replace ((48 <=? 87 + n) && (87 + n <=? 57)) with false.
    + replace ((97 <=? 87 + n) && (87 + n <=? 102)) with true.
      * f_equal. lia.
      * symmetry. apply andb_true_iff. split; apply N.leb_le; lia.
    + symmetry. apply andb_false_iff. right. apply N.leb_gt. lia.
Qed.

Lemma hex4_escape c : c < 65536 ->
  hex4 (hex_digit ((c / 4096) mod 16)) (hex_digit ((c / 256) mod 16))
       (hex_digit ((c / 16) mod 16)) (hex_digit (c mod 16)) = Some c.
Proof.
  intros Hc. unfold hex4.
  rewrite !hex_value_digit by (apply N.mod_lt; lia).
  f_equal.
  zify. Z.to_euclidean_division_equations. lia.
Qed.

Lemma list_ind2 {A} (P : list A -> Prop) :
  P [] -> (forall c, P [c]) -> (forall c d s, P s -> P (d :: s) -> P (c :: d :: s)) ->
  forall s, P s.
Proof.
  intros H0 H1 H2 s.
  assert (P s /\ forall c, P (c :: s)) as [? _]; [| assumption].
  induction s as [|d s [IHs IHc]]; split; auto.
Qed.

Lemma parse_plain c s :
  c <> DQUOTE -> c <> BACKSLASH -> 32 <= c ->
  parse_string_body (c :: s) = cons_result c (parse_string_body s).
Proof.
  intros H1 H2 H3. simpl.
  destruct (N.eqb_spec c DQUOTE); [contradiction |].
  destruct (N.eqb_spec c BACKSLASH); [contradiction |].
  destruct (N.ltb_spec c 32); [lia | reflexivity].
Qed.

Lemma parse_u_step a b x d s :
  parse_string_body (BACKSLASH :: ch "u" :: a :: b :: x :: d :: s) =
  match hex4 a b x d with
  | Some v => cons_result v (parse_string_body s)
  | None => None
  end.
Proof. reflexivity. Qed.

Lemma parse_unicode_escape c s :
  c < 65536 ->
  parse_string_body (unicode_escape c ++ s) = cons_result c (parse_string_body s).
Proof.
  intros Hc. unfold unicode_escape.
  change (parse_string_body (BACKSLASH :: ch "u" :: hex_digit ((c / 4096) mod 16) ::
     hex_digit ((c / 256) mod 16) :: hex_digit ((c / 16) mod 16) :: hex_digit (c mod 16) :: s) =
     cons_result c (parse_string_body s)).
  rewrite parse_u_step, hex4_escape by assumption. reflexivity.
Qed.

Lemma parse_quote_code_unit c s :
  parse_string_body (quote_code_unit c ++ s) = cons_result c (parse_string_body s).
Proof.
  unfold quote_code_unit.
  repeat match goal with
  | |- context [if ?x =? ?y then _ else _] => destruct (N.eqb_spec x y); [subst; reflexivity |]
  end.
  destruct (N.ltb_spec c 32).
  - apply parse_unicode_escape. lia.
  - apply parse_plain; assumption.
Qed.

Lemma high_surrogate_range c : is_high_surrogate c = true -> 55296 <= c <= 56319.
Proof. unfold is_high_surrogate. rewrite andb_true_iff, !N.leb_le. tauto. Qed.

Lemma low_surrogate_range c : is_low_surrogate c = true -> 56320 <= c <= 57343.
Proof. unfold is_low_surrogate. rewrite andb_true_iff, !N.leb_le. tauto. Qed.

Lemma parse_surrogate c s :
  is_high_surrogate c = true \/ is_low_surrogate c = true ->
  parse_string_body (c :: s) = cons_result c (parse_string_body s).
Proof.
  intros H. apply parse_plain; unfold DQUOTE, BACKSLASH;
    destruct H as [H|H]; [apply high_surrogate_range in H | apply low_surrogate_range in H
                         |apply high_surrogate_range in H | apply low_surrogate_range in H
                         |apply high_surrogate_range in H | apply low_surrogate_range in H]; lia.
Qed.

Lemma parse_escaped_surrogate c s :
  is_high_surrogate c = true \/ is_low_surrogate c = true ->
  parse_string_body (unicode_escape c ++ s) = cons_result c (parse_string_body s).
Proof.
  intros H. apply parse_unicode_escape.
  destruct H as [H|H]; [apply high_surrogate_range in H | apply low_surrogate_range in H]; lia.
Qed.

(** The parser reads back what [QuoteJSONString] wrote. *)
Lemma parse_quote_body s rest :
  parse_string_body (quote_body s ++ DQUOTE :: rest) = Some (s, rest).
Proof.
  induction s as [|c|c d s IHs IHd] using list_ind2.
  - reflexivity.
  - change (quote_body [c]) with
      (if is_high_surrogate c then unicode_escape c
       else if is_low_surrogate c then unicode_escape c ++ []
       else quote_code_unit c ++ []).
    destruct (is_high_surrogate c) eqn:Hh; [| destruct (is_low_surrogate c) eqn:Hl].
    + rewrite parse_escaped_surrogate by auto. reflexivity.
    + rewrite app_nil_r, parse_escaped_surrogate by auto. reflexivity.
    + rewrite app_nil_r, parse_quote_code_unit. reflexivity.
  - change (quote_body (c :: d :: s)) with
      (if is_high_surrogate c then
         if is_low_surrogate d then c :: d :: quote_body s
         else unicode_escape c ++ quote_body (d :: s)
       else if is_low_surrogate c then unicode_escape c ++ quote_body (d :: s)
       else quote_code_unit c ++ quote_body (d :: s)).
    destruct (is_high_surrogate c) eqn:Hh; [destruct (is_low_surrogate d) eqn:Hd |
      destruct (is_low_surrogate c) eqn:Hl].
    + rewrite <- !app_comm_cons, !parse_surrogate, IHs by auto. reflexivity.
    + rewrite <- app_assoc, parse_escaped_surrogate, IHd by auto. reflexivity.
    + rewrite <- app_assoc, parse_escaped_surrogate, IHd by auto. reflexivity.
    + rewrite <- app_assoc, parse_quote_code_unit, IHd. reflexivity.
Qed.


Lemma member_text_shape k v tail :
  member_text (k, v) ++ tail =
  DQUOTE :: (quote_body k ++ DQUOTE :: ch ":" :: DQUOTE :: (quote_body v ++ DQUOTE :: tail)).
Proof.
  unfold member_text, QuoteJSONString. simpl fst. simpl snd.
  rewrite <- !app_comm_cons. f_equal. rewrite <- !app_assoc. simpl. 
  do 3 f_equal. rewrite <- app_assoc. reflexivity.
Qed.

Lemma parse_value_string fuel s rest :
  parse_value (S fuel) (DQUOTE :: (quote_body s ++ DQUOTE :: rest)) = Some (JString s, rest).
Proof.
  change (parse_value (S fuel) (DQUOTE :: (quote_body s ++ DQUOTE :: rest)))
    with (match parse_string_body (quote_body s ++ DQUOTE :: rest) with
          | Some (str, r) => Some (JString str, r)
          | None => None
          end).
  rewrite parse_quote_body. reflexivity.
Qed.

Lemma parse_member_string k v fuel tail :
  parse_members (S (S fuel)) (member_text (k, v) ++ tail) =
  match skip_ws tail with
  | [] => None
  | c :: r5 =>
    if c =? ch "," then
      match parse_members (S fuel) (skip_ws r5) with
      | Some (ms, r6) => Some ((k, JString v) :: ms, r6)
      | None => None
      end
    else if c =? ch "}" then Some ([(k, JString v)], r5)
    else None
  end.
Proof.
  rewrite member_text_shape.
  remember (S fuel) as f eqn:Hf.
  cbn [parse_members expect].
  rewrite N.eqb_refl, parse_quote_body.
  change (skip_ws (ch ":" :: ?x)) with (ch ":" :: x).
  cbn [expect]. rewrite N.eqb_refl.
  change (skip_ws (DQUOTE :: ?x)) with (DQUOTE :: x).
  subst f. rewrite parse_value_string. reflexivity.
Qed.

Lemma skip_ws_members kv kvs x :
  skip_ws (join [ch ","] (List.map member_text (kv :: kvs)) ++ x) =
  join [ch ","] (List.map member_text (kv :: kvs)) ++ x.
Proof. destruct kv, kvs; reflexivity. Qed.

Lemma parse_members_strings kvs : forall fuel rest,
  kvs <> [] -> (length kvs < fuel)%nat ->
  parse_members fuel (join [ch ","] (List.map member_text kvs) ++ ch "}" :: rest) =
  Some (List.map string_member kvs, rest).
Proof.
  induction kvs as [|[k v] kvs IH]; intros fuel rest Hne Hfuel; [congruence |].
  destruct fuel as [|[|fuel]]; simpl in Hfuel; try lia.
  destruct kvs as [|kv' kvs].
  - simpl join. rewrite parse_member_string. reflexivity.
  - change (join [ch ","] (List.map member_text ((k, v) :: kv' :: kvs)))
      with (member_text (k, v) ++ [ch ","] ++ join [ch ","] (List.map member_text (kv' :: kvs))).
    rewrite <- !app_assoc, parse_member_string.
    change (skip_ws ([ch ","] ++ ?x)) with (ch "," :: x).
    cbv beta iota.
    rewrite N.eqb_refl, skip_ws_members, IH by (simpl in *; (congruence || lia)).
    reflexivity.
Qed.

Lemma length_members kvs :
  (length kvs <= length (join [ch ","] (List.map member_text kvs)))%nat.
Proof.
  induction kvs as [|[k v] [|kv' kvs] IH]; simpl in *; try lia.
  rewrite !length_app. simpl. rewrite !length_app in *. simpl in *. lia.
Qed.

Lemma JSON_parse_members kvs :
  kvs <> [] ->
  JSON_parse (ch "{" :: join [ch ","] (List.map member_text kvs) ++ [ch "}"]) =
  Some (JObject (List.map string_member kvs)).
Proof.
  intros Hne. unfold JSON_parse.
  change (skip_ws (ch "{" :: ?x)) with (ch "{" :: x).
  cbn [parse_value]. rewrite N.eqb_refl.
  destruct kvs as [|kv kvs]; [congruence |].
  rewrite skip_ws_members.
  replace (expect (ch "}") (join [ch ","] (List.map member_text (kv :: kvs)) ++ [ch "}"]))
    with (@None jsstring) by (destruct kv, kvs; reflexivity).
  rewrite parse_members_strings; [reflexivity | congruence |].
  pose proof (length_members (kv :: kvs)) as Hlen.
  cbn [length]. rewrite length_app. cbn [length] in *. lia.
Qed.


Lemma JSON_stringify_members e :
  JSON_stringify e = ch "{" :: join [ch ","] (List.map member_text (entry_members e)) ++ [ch "}"].
Proof. destruct e as [i t x [f|] [k|]]; reflexivity. Qed.

Lemma JSON_parse_stringify e :
  JSON_parse (JSON_stringify e) = Some (JObject (List.map string_member (entry_members e))).
Proof.
  rewrite JSON_stringify_members. apply JSON_parse_members.
  destruct e as [i t x [f|] [k|]]; discriminate.
Qed.

Lemma decode_stringify i e : decode_line i (JSON_stringify e) = Returned e.
Proof.
  unfold decode_line. rewrite JSON_parse_stringify.
  destruct e as [i' t x [f|] [k|]]; reflexivity.
Qed.


Section Written.
Variable Q : jsstring -> Prop.
Hypothesis Q_nil : Q [].
Hypothesis Q_app : forall a b, Q a -> Q b -> Q (a ++ b).
Hypothesis Q_unit : forall c,
  32 <= c -> is_high_surrogate c = false -> is_low_surrogate c = false -> Q [c].
Hypothesis Q_pair : forall c d,
  is_high_surrogate c = true -> is_low_surrogate d = true -> Q [c; d].

Lemma Q_cons c s :
  32 <= c -> is_high_surrogate c = false -> is_low_surrogate c = false -> Q s -> Q (c :: s).
Proof. intros. apply (Q_app [c] s); auto. Qed.

Lemma Q_ascii c s : 32 <= c < 128 -> Q s -> Q (c :: s).
Proof.
  intros Hc Hs. apply Q_cons; [lia | | | assumption].
  - unfold is_high_surrogate. apply andb_false_iff. left. apply N.leb_gt. lia.
  - unfold is_low_surrogate. apply andb_false_iff. left. apply N.leb_gt. lia.
Qed.

Lemma Q_plain_ascii s : plain_ascii s = true -> Q s.
Proof.
  induction s as [|c s IH]; simpl; [auto |].
  rewrite !andb_true_iff, N.leb_le, N.ltb_lt. intros [[? ?] ?]. apply Q_ascii; auto.
Qed.

Lemma hex_digit_range n : n < 16 -> 32 <= hex_digit n < 128.
Proof. intros Hn. unfold hex_digit. destruct (N.ltb_spec n 10); lia. Qed.

Lemma Q_unicode_escape c : Q (unicode_escape c).
Proof.
  unfold unicode_escape.
  repeat (apply Q_ascii; [first [apply hex_digit_range; apply N.mod_lt; lia | vm_compute; split; [discriminate | reflexivity]] |]).
  apply Q_nil.
Qed.

Lemma Q_quote_code_unit c :
  is_high_surrogate c = false -> is_low_surrogate c = false -> Q (quote_code_unit c).
Proof.
  intros Hh Hl. unfold quote_code_unit.
  repeat match goal with
  | |- context [if ?x =? ?y then _ else _] =>
    destruct (N.eqb_spec x y); [apply Q_plain_ascii; reflexivity |]
  end.
  destruct (N.ltb_spec c 32); [apply Q_unicode_escape | apply Q_unit; auto].
Qed.

Lemma Q_quote_body s : Q (quote_body s).
Proof.
  induction s as [|c|c d s IHs IHd] using list_ind2.
  - apply Q_nil.
  - change (quote_body [c]) with
      (if is_high_surrogate c then unicode_escape c
       else if is_low_surrogate c then unicode_escape c ++ []
       else quote_code_unit c ++ []).
    destruct (is_high_surrogate c) eqn:Hh; [| destruct (is_low_surrogate c) eqn:Hl];
      auto using Q_unicode_escape, Q_quote_code_unit.
  - change (quote_body (c :: d :: s)) with
      (if is_high_surrogate c then
         if is_low_surrogate d then [c; d] ++ quote_body s
         else unicode_escape c ++ quote_body (d :: s)
       else if is_low_surrogate c then unicode_escape c ++ quote_body (d :: s)
       else quote_code_unit c ++ quote_body (d :: s)).
    destruct (is_high_surrogate c) eqn:Hh; [destruct (is_low_surrogate d) eqn:Hd |
      destruct (is_low_surrogate c) eqn:Hl];
      auto using Q_unicode_escape, Q_quote_code_unit.
Qed.

Lemma Q_QuoteJSONString s : Q (QuoteJSONString s).
Proof.
  unfold QuoteJSONString. apply Q_ascii; [vm_compute; split; [discriminate | reflexivity] |].
  apply Q_app; [apply Q_quote_body | apply Q_plain_ascii; reflexivity].
Qed.

Lemma Q_member_text kv : Q (member_text kv).
Proof.
  unfold member_text. apply Q_app; [apply Q_QuoteJSONString |].
  apply Q_ascii; [vm_compute; split; [discriminate | reflexivity] | apply Q_QuoteJSONString].
Qed.

Lemma Q_join sep parts : Q sep -> Forall Q parts -> Q (join sep parts).
Proof.
  intros Hsep Hparts. induction Hparts as [|p [|p' parts] Hp Hrest IH]; simpl; auto.
Qed.

Lemma Q_JSON_stringify e : Q (JSON_stringify e).
Proof.
  rewrite JSON_stringify_members.
  apply Q_ascii; [vm_compute; split; [discriminate | reflexivity] |].
  apply Q_app; [| apply Q_plain_ascii; reflexivity].
  apply Q_join; [apply Q_plain_ascii; reflexivity |].
  apply List.Forall_forall. intros x Hx. apply in_map_iff in Hx as [kv [<- _]].
  apply Q_member_text.
Qed.
End Written.

Lemma printable_JSON_stringify e : printable (JSON_stringify e).
Proof.
  apply Q_JSON_stringify; unfold printable.
  - constructor.
  - intros a b. apply Forall_app_2.
  - intros c Hc _ _. repeat constructor. assumption.
  - intros c d Hc Hd. apply high_surrogate_range in Hc. apply low_surrogate_range in Hd.
    repeat constructor; lia.
Qed.

Lemma well_formed_app a b : well_formed a -> well_formed b -> well_formed (a ++ b).
Proof. intros Ha Hb. induction Ha; simpl; auto using well_formed. Qed.

Lemma well_formed_JSON_stringify e : well_formed (JSON_stringify e).
Proof.
  apply Q_JSON_stringify; auto using well_formed, well_formed_app.
Qed.

Lemma utf8_roundtrip_well_formed s : well_formed s -> utf8_roundtrip s = s.
Proof.
  induction 1 as [|c s Hh Hl Hs IH|c d s Hh Hl Hs IH].
  - reflexivity.
  - simpl. rewrite Hh, Hl, IH. reflexivity.
  - simpl. rewrite Hh, Hl, IH. reflexivity.
Qed.

Lemma split_lines_line l rest :
  printable l -> split_lines (l ++ LF :: rest) = l :: split_lines rest.
Proof.
  induction 1 as [|c l Hc Hl IH].
  - reflexivity.
  - change (split_lines ((c :: l) ++ LF :: rest)) with
      (if c =? LF then [] :: split_lines (l ++ LF :: rest)
       else match l ++ LF :: rest with
            | d :: rest' =>
              if (c =? CR) && (d =? LF) then [] :: split_lines rest'
              else push_char c (split_lines (l ++ LF :: rest))
            | [] => [[c]]
            end).
    destruct (N.eqb_spec c LF); [unfold LF in *; lia |].
    destruct (N.eqb_spec c CR); [unfold CR in *; lia |].
    rewrite IH. destruct l; reflexivity.
Qed.

(** ** The parser consumes its input, and its fuel is enough *)

Section ParserFuel.
Local Open Scope nat_scope.

Lemma skip_ws_length s : length (skip_ws s) <= length s.
Proof. induction s as [|c s IH]; simpl; [lia |]. destruct (is_ws c); simpl; lia. Qed.

Lemma expect_length c s r : expect c s = Some r -> length s = S (length r).
Proof.
  destruct s as [|d s]; simpl; [discriminate |].
  destruct (d =? c)%N; [intros [= ->]; reflexivity | discriminate].
Qed.

Lemma cons_result_length c o x r n :
  cons_result c o = Some (x, r) ->
  (forall x' r', o = Some (x', r') -> length r' < n) -> length r < n.
Proof.
  destruct o as [[x' r']|]; simpl; [| discriminate].
  intros [= ? ?] Hn. subst. apply (Hn _ _ eq_refl).
Qed.

Lemma parse_string_body_length s : forall x r,
  parse_string_body s = Some (x, r) -> length r < length s.
Proof.
  induction s as [s IH] using (induction_ltof1 _ (@length N)). unfold ltof in IH.
  intros x r. destruct s as [|c s]; [discriminate |]. cbn [parse_string_body].
  destruct (c =? DQUOTE)%N; [intros [= <- <-]; simpl; lia |].
  destruct (c =? BACKSLASH)%N.
  - destruct s as [|e s]; [discriminate |].
    destruct (e =? ch "u")%N.
    + destruct s as [|h1 [|h2 [|h3 [|h4 s]]]]; try discriminate.
      destruct (hex4 h1 h2 h3 h4); [| discriminate].
      intros Hc. eapply cons_result_length in Hc; [| intros x' r' Hr'; apply IH in Hr'; [exact Hr' | simpl; lia]].
      simpl in *. lia.
    + destruct (unescape e); [| discriminate].
      intros Hc. eapply cons_result_length in Hc; [| intros x' r' Hr'; apply IH in Hr'; [exact Hr' | simpl; lia]].
      simpl in *. lia.
  - destruct (c <? 32)%N; [discriminate |].
    intros Hc. eapply cons_result_length in Hc; [| intros x' r' Hr'; apply IH in Hr'; [exact Hr' | simpl; lia]].
    simpl in *. lia.
Qed.

Lemma strip_prefix_length p : forall s r, strip_prefix p s = Some r -> length s = length p + length r.
Proof.
  induction p as [|a p IH]; intros s r; cbn [strip_prefix].
  - intros [= ->]. reflexivity.
  - destruct s as [|c s]; [discriminate |]. destruct (c =? a)%N; [| discriminate].
    intros Hs. apply IH in Hs. simpl. lia.
Qed.

Lemma span_digits_length s : length (snd (span_digits s)) <= length s.
Proof.
  induction s as [|c s IH]; simpl; [lia |].
  destruct (is_digit c); [| simpl; lia].
  destruct (span_digits s) as [ds r]. simpl in *. lia.
Qed.

Lemma digits1_length s ds r : digits1 s = Some (ds, r) -> length r <= length s.
Proof.
  unfold digits1. pose proof (span_digits_length s) as Hlen.
  destruct (span_digits s) as [[|d ds'] r']; [discriminate |].
  intros [= <- <-]. exact Hlen.
Qed.

Lemma int_part_length s i r : int_part s = Some (i, r) -> length r < length s.
Proof.
  destruct s as [|c s]; unfold int_part; [discriminate |].
  destruct (c =? 48)%N; [intros [= <- <-]; simpl; lia |].
  destruct (is_digit c); [| discriminate].
  pose proof (span_digits_length s) as Hlen.
  destruct (span_digits s) as [ds r']. intros [= <- <-]. simpl in *. lia.
Qed.

Lemma frac_part_length s f r : frac_part s = Some (f, r) -> length r <= length s.
Proof.
  destruct s as [|c s]; unfold frac_part; [intros [= <- <-]; reflexivity |].
  destruct (c =? ch ".")%N; [| intros [= <- <-]; reflexivity].
  destruct (digits1 s) as [[ds r']|] eqn:Hd; [| discriminate].
  intros [= <- <-]. apply digits1_length in Hd. simpl. lia.
Qed.

Lemma exp_part_length s e r : exp_part s = Some (e, r) -> length r <= length s.
Proof.
  destruct s as [|c s]; unfold exp_part; [intros [= <- <-]; reflexivity |].
  destruct ((c =? ch "e")%N || (c =? ch "E")%N); [| intros [= <- <-]; reflexivity].
  destruct s as [|sg s]; [discriminate |].
  destruct ((sg =? ch "+")%N || (sg =? ch "-")%N).
  - destruct (digits1 s) as [[ds r']|] eqn:Hd; [| discriminate].
    intros [= <- <-]. apply digits1_length in Hd. simpl. lia.
  - destruct (digits1 (sg :: s)) as [[ds r']|] eqn:Hd; [| discriminate].
    intros [= <- <-]. apply digits1_length in Hd. simpl in *. lia.
Qed.

Lemma parse_number_length s l r : parse_number s = Some (l, r) -> length r < length s.
Proof.
  unfold parse_number.
  assert (exists sign s0, (match s with
    | c :: rest => if (c =? ch "-")%N then ([c], rest) else ([], s)
    | [] => ([], s) end) = (sign, s0) /\ length s0 <= length s) as (sign & s0 & -> & Hs0).
  { destruct s as [|c s]; [eauto |]. destruct (c =? ch "-")%N; eexists _, _; split; eauto; simpl; lia. }
  destruct (int_part s0) as [[i s1]|] eqn:Hi; [| discriminate].
  destruct (frac_part s1) as [[f s2]|] eqn:Hf; [| discriminate].
  destruct (exp_part s2) as [[e s3]|] eqn:He; [| discriminate].
  intros [= <- <-].
  apply int_part_length in Hi. apply frac_part_length in Hf. apply exp_part_length in He. lia.
Qed.

Lemma parse_value_unfold fuel s :
  parse_value (S fuel) s =
  match s with
  | [] => None
  | c :: rest =>
    if (c =? ch "{")%N then
      match expect (ch "}") (skip_ws rest) with
      | Some r => Some (JObject [], r)
      | None =>
        match parse_members fuel (skip_ws rest) with
        | Some (ms, r) => Some (JObject ms, r)
        | None => None
        end
      end
    else if (c =? ch "[")%N then
      match expect (ch "]") (skip_ws rest) with
      | Some r => Some (JArray [], r)
      | None =>
        match parse_elements fuel (skip_ws rest) with
        | Some (vs, r) => Some (JArray vs, r)
        | None => None
        end
      end
    else if (c =? DQUOTE)%N then
      match parse_string_body rest with
      | Some (str, r) => Some (JString str, r)
      | None => None
      end
    else if (c =? ch "t")%N then
      match strip_prefix (js "true") s with
      | Some r => Some (JBool true, r)
      | None => None
      end
    else if (c =? ch "f")%N then
      match strip_prefix (js "false") s with
      | Some r => Some (JBool false, r)
      | None => None
      end
    else if (c =? ch "n")%N then
      match strip_prefix (js "null") s with
      | Some r => Some (JNull, r)
      | None => None
      end
    else
      match parse_number s with
      | Some (lexeme, r) => Some (JNumber lexeme, r)
      | None => None
      end
  end.
Proof. reflexivity. Qed.

Lemma parse_members_unfold fuel s :
  parse_members (S fuel) s =
  match expect DQUOTE s with
  | None => None
  | Some r1 =>
    match parse_string_body r1 with
    | None => None
    | Some (k, r2) =>
      match expect (ch ":") (skip_ws r2) with
      | None => None
      | Some r3 =>
        match parse_value fuel (skip_ws r3) with
        | None => None
        | Some (v, r4) =>
          match skip_ws r4 with
          | [] => None
          | c :: r5 =>
            if (c =? ch ",")%N then
              match parse_members fuel (skip_ws r5) with
              | Some (ms, r6) => Some ((k, v) :: ms, r6)
              | None => None
              end
            else if (c =? ch "}")%N then Some ([(k, v)], r5)
            else None
          end
        end
      end
    end
  end.
Proof. reflexivity. Qed.

Lemma parse_elements_unfold fuel s :
  parse_elements (S fuel) s =
  match parse_value fuel s with
  | None => None
  | Some (v, r1) =>
    match skip_ws r1 with
    | [] => None
    | c :: r2 =>
      if (c =? ch ",")%N then
        match parse_elements fuel (skip_ws r2) with
        | Some (vs, r3) => Some (v :: vs, r3)
        | None => None
        end
      else if (c =? ch "]")%N then Some ([v], r2)
      else None
    end
  end.
Proof. reflexivity. Qed.

(** Every parser consumes input. *)
Lemma parse_shrinks fuel :
  (forall s v r, parse_value fuel s = Some (v, r) -> length r < length s) /\
  (forall s ms r, parse_members fuel s = Some (ms, r) -> length r < length s) /\
  (forall s vs r, parse_elements fuel s = Some (vs, r) -> length r < length s).
Proof.
  induction fuel as [|fuel (IHv & IHm & IHe)]; [repeat split; discriminate |].
  split; [| split].
  - intros s v r. rewrite parse_value_unfold.
    destruct s as [|c rest]; [discriminate |].
    pose proof (skip_ws_length rest) as Hws.
    destruct (c =? ch "{")%N.
    { destruct (expect (ch "}") (skip_ws rest)) as [r0|] eqn:Hx.
      - intros [= <- <-]. apply expect_length in Hx. simpl. lia.
      - destruct (parse_members fuel (skip_ws rest)) as [[ms r0]|] eqn:Hms; [| discriminate].
        intros [= <- <-]. apply IHm in Hms. simpl. lia. }
    destruct (c =? ch "[")%N.
    { destruct (expect (ch "]") (skip_ws rest)) as [r0|] eqn:Hx.
      - intros [= <- <-]. apply expect_length in Hx. simpl. lia.
      - destruct (parse_elements fuel (skip_ws rest)) as [[vs r0]|] eqn:Hvs; [| discriminate].
        intros [= <- <-]. apply IHe in Hvs. simpl. lia. }
    destruct (c =? DQUOTE)%N.
    { destruct (parse_string_body rest) as [[str r0]|] eqn:Hstr; [| discriminate].
      intros [= <- <-]. apply parse_string_body_length in Hstr. simpl. lia. }
    destruct (c =? ch "t")%N.
    { destruct (strip_prefix (js "true") (c :: rest)) as [r0|] eqn:Hp; [| discriminate].
      intros [= <- <-]. apply strip_prefix_length in Hp. rewrite Hp. simpl. lia. }
    destruct (c =? ch "f")%N.
    { destruct (strip_prefix (js "false") (c :: rest)) as [r0|] eqn:Hp; [| discriminate].
      intros [= <- <-]. apply strip_prefix_length in Hp. rewrite Hp. simpl. lia. }
    destruct (c =? ch "n")%N.
    { destruct (strip_prefix (js "null") (c :: rest)) as [r0|] eqn:Hp; [| discriminate].
      intros [= <- <-]. apply strip_prefix_length in Hp. rewrite Hp. simpl. lia. }
    destruct (parse_number (c :: rest)) as [[lexeme r0]|] eqn:Hn; [| discriminate].
    intros [= <- <-]. apply parse_number_length in Hn. exact Hn.
  - intros s ms r. rewrite parse_members_unfold.
    destruct (expect DQUOTE s) as [r1|] eqn:H1; [| discriminate].
    destruct (parse_string_body r1) as [[k r2]|] eqn:H2; [| discriminate].
    destruct (expect (ch ":") (skip_ws r2)) as [r3|] eqn:H3; [| discriminate].
    destruct (parse_value fuel (skip_ws r3)) as [[v r4]|] eqn:H4; [| discriminate].
    destruct (skip_ws r4) as [|c r5] eqn:H5; [discriminate |].
    apply expect_length in H1, H3. apply parse_string_body_length in H2. apply IHv in H4.
    pose proof (skip_ws_length r2). pose proof (skip_ws_length r3).
    pose proof (skip_ws_length r4) as Hr4. rewrite H5 in Hr4. simpl in Hr4.
    destruct (c =? ch ",")%N.
    + destruct (parse_members fuel (skip_ws r5)) as [[ms' r6]|] eqn:H6; [| discriminate].
      intros [= <- <-]. apply IHm in H6. pose proof (skip_ws_length r5). lia.
    + destruct (c =? ch "}")%N; [| discriminate]. intros [= <- <-]. lia.
  - intros s vs r. rewrite parse_elements_unfold.
    destruct (parse_value fuel s) as [[v r1]|] eqn:H1; [| discriminate].
    destruct (skip_ws r1) as [|c r2] eqn:H2; [discriminate |].
    apply IHv in H1. pose proof (skip_ws_length r1) as Hr1. rewrite H2 in Hr1. simpl in Hr1.
    destruct (c =? ch ",")%N.
    + destruct (parse_elements fuel (skip_ws r2)) as [[vs' r3]|] eqn:H3; [| discriminate].
      intros [= <- <-]. apply IHe in H3. pose proof (skip_ws_length r2). lia.
    + destruct (c =? ch "]")%N; [| discriminate]. intros [= <- <-]. lia.
Qed.

(** Twice the length of the input is enough fuel for a value, and one more
    for a list of members or elements: beyond that the result does not
    depend on the fuel. *)
Lemma parse_fuel fuel : forall fuel',
  (forall s, 2 * length s <= fuel -> 2 * length s <= fuel' ->
     parse_value fuel s = parse_value fuel' s) /\
  (forall s, 2 * length s < fuel -> 2 * length s < fuel' ->
     parse_members fuel s = parse_members fuel' s) /\
  (forall s, 2 * length s < fuel -> 2 * length s < fuel' ->
     parse_elements fuel s = parse_elements fuel' s).
Proof.
  induction fuel as [|fuel IH]; intros fuel'.
  { split; [| split; intros; lia].
    intros [|c s] Hs _; [destruct fuel'; reflexivity | simpl in *; lia]. }
  destruct fuel' as [|fuel'].
  { split; [| split; intros; lia].
    intros [|c s] _ Hs; [reflexivity | simpl in *; lia]. }
  destruct (IH fuel') as (IHv & IHm & IHe).
  destruct (parse_shrinks fuel') as (Sv & Sm & Se).
  split; [| split].
  - intros s Hs Hs'. rewrite !parse_value_unfold.
    destruct s as [|c rest]; [reflexivity |].
    pose proof (skip_ws_length rest) as Hws. simpl in Hs, Hs'.
    rewrite (IHm (skip_ws rest)), (IHe (skip_ws rest)) by lia. reflexivity.
  - intros s Hs Hs'. rewrite !parse_members_unfold.
    destruct (expect DQUOTE s) as [r1|] eqn:H1; [| reflexivity].
    destruct (parse_string_body r1) as [[k r2]|] eqn:H2; [| reflexivity].
    destruct (expect (ch ":") (skip_ws r2)) as [r3|] eqn:H3; [| reflexivity].
    apply expect_length in H1, H3. apply parse_string_body_length in H2.
    pose proof (skip_ws_length r2). pose proof (skip_ws_length r3).
    rewrite (IHv (skip_ws r3)) by lia.
    destruct (parse_value fuel' (skip_ws r3)) as [[v r4]|] eqn:H4; [| reflexivity].
    destruct (skip_ws r4) as [|c r5] eqn:H5; [reflexivity |].
    apply Sv in H4. pose proof (skip_ws_length r4) as Hr4. rewrite H5 in Hr4. simpl in Hr4.
    pose proof (skip_ws_length r5).
    rewrite (IHm (skip_ws r5)) by lia. reflexivity.
  - intros s Hs Hs'. rewrite !parse_elements_unfold.
    rewrite (IHv s) by lia.
    destruct (parse_value fuel' s) as [[v r1]|] eqn:H1; [| reflexivity].
    destruct (skip_ws r1) as [|c r2] eqn:H2; [reflexivity |].
    apply Sv in H1. pose proof (skip_ws_length r1) as Hr1. rewrite H2 in Hr1. simpl in Hr1.
    pose proof (skip_ws_length r2).
    rewrite (IHe (skip_ws r2)) by lia. reflexivity.
Qed.

(** [JSON_parse] gives what the parser gives with any larger fuel. *)
Lemma JSON_parse_fuel text fuel :
  2 * length text <= fuel ->
  JSON_parse text =
  match parse_value fuel (skip_ws text) with
  | Some (v, r) => match skip_ws r with [] => Some v | _ :: _ => None end
  | None => None
  end.
Proof.
  intros Hfuel. unfold JSON_parse. pose proof (skip_ws_length text).
  rewrite (proj1 (parse_fuel (S (2 * length text)) fuel) (skip_ws text)) by lia. reflexivity.
Qed.

End ParserFuel.

(** ** Records *)

Lemma typeof_string v : jsstring_eqb (typeof v) (js "string") = true <-> is_string v.
Proof.
  unfold is_string. destruct v as [[]|]; vm_compute; split;
    first [discriminate | intros [? ?]; discriminate | eauto].
Qed.

Lemma typeof_undefined v : jsstring_eqb (typeof v) (js "undefined") = true <-> v = None.
Proof.
  destruct v as [[]|]; vm_compute; split; first [discriminate | reflexivity].
Qed.

Lemma isNoteEntry_object props :
  let v := JObject props in
  isNoteEntry v =
  jsstring_eqb (typeof (Get v (js "id"))) (js "string")
  && jsstring_eqb (typeof (Get v (js "timestamp"))) (js "string")
  && jsstring_eqb (typeof (Get v (js "text"))) (js "string")
  && (jsstring_eqb (typeof (Get v (js "file"))) (js "undefined")
      || jsstring_eqb (typeof (Get v (js "file"))) (js "string"))
  && (jsstring_eqb (typeof (Get v (js "kind"))) (js "undefined")
      || jsstring_eqb (typeof (Get v (js "kind"))) (js "string")).
Proof.
  intros v. unfold isNoteEntry.
  change (is_null v || negb (jsstring_eqb (typeof (Some v)) (js "object"))) with false.
  cbv beta iota.
  destruct (jsstring_eqb (typeof (Get v (js "id"))) (js "string")); [| reflexivity].
  destruct (jsstring_eqb (typeof (Get v (js "timestamp"))) (js "string")); [| reflexivity].
  destruct (jsstring_eqb (typeof (Get v (js "text"))) (js "string")); [| reflexivity].
  destruct (jsstring_eqb (typeof (Get v (js "file"))) (js "undefined")),
           (jsstring_eqb (typeof (Get v (js "file"))) (js "string")),
           (jsstring_eqb (typeof (Get v (js "kind"))) (js "undefined")),
           (jsstring_eqb (typeof (Get v (js "kind"))) (js "string")); reflexivity.
Qed.

Lemma isNoteEntry_spec v : isNoteEntry v = true <-> valid_record v.
Proof.
  unfold valid_record. destruct v as [| | | | |props];
    try (split; [vm_compute; discriminate | intros [[? ?] _]; discriminate]).
  rewrite isNoteEntry_object. cbv zeta.
  rewrite !andb_true_iff, !orb_true_iff, !typeof_string, !typeof_undefined.
  split; [intros [[[[? ?] ?] ?] ?]; eauto 10 | tauto].
Qed.

Lemma jsstring_eqb_nil l : l <> [] -> jsstring_eqb l [] = false.
Proof. destruct l; [congruence | reflexivity]. Qed.

Lemma malformed_dec line : malformed line \/ ~ malformed line.
Proof.
  unfold malformed. destruct (JSON_parse line) as [v|] eqn:Hp.
  - destruct (isNoteEntry v) eqn:Hv.
    + right. intros Hm. apply (Hm v eq_refl). apply isNoteEntry_spec. assumption.
    + left. intros v' [= <-]. rewrite <- isNoteEntry_spec. congruence.
  - left. intros v' [=].
Qed.

Lemma decode_line_malformed i line :
  malformed line ->
  exists what,
    (what = js "Invalid note store format at line " \/ what = js "Invalid note entry at line ") /\
    decode_line i line = Thrown (JsError (what ++ decimal (i + 1) ++ js ".")).
Proof.
  intros Hm. unfold decode_line. destruct (JSON_parse line) as [v|] eqn:Hp.
  - destruct (isNoteEntry v) eqn:Hv.
    + exfalso. apply (Hm v Hp). apply isNoteEntry_spec. assumption.
    + eexists. split; [right; reflexivity | reflexivity].
  - eexists. split; [left; reflexivity | reflexivity].
Qed.

Lemma decode_line_valid i line :
  ~ malformed line -> exists e, decode_line i line = Returned e.
Proof.
  intros Hm. unfold decode_line. destruct (JSON_parse line) as [v|] eqn:Hp.
  - destruct (isNoteEntry v) eqn:Hv; [eexists; reflexivity |].
    exfalso. apply Hm. intros v' Hv'. rewrite Hp in Hv'. injection Hv' as <-. rewrite <- isNoteEntry_spec. congruence.
  - exfalso. apply Hm. intros v' Hv'. rewrite Hp in Hv'. discriminate.
Qed.

Lemma first_malformed (lines : list jsstring) : forall (i : nat) (line : jsstring),
  lines !! i = Some line -> line <> [] -> malformed line ->
  exists (k : nat) (bad : jsstring),
    (k <= i)%nat /\ lines !! k = Some bad /\ bad <> [] /\ malformed bad /\
    (forall (j : nat) (l : jsstring),
        (j < k)%nat -> lines !! j = Some l -> l = [] \/ ~ malformed l).
Proof.
  induction lines as [|l0 lines IH]; intros i line Hi Hne Hm; [discriminate |].
  destruct (malformed_dec l0) as [Hm0|Hm0]; [destruct l0 as [|c l0] |].
  - destruct i as [|i]; [simpl in Hi; injection Hi as <-; congruence |]. simpl in Hi.
    destruct (IH i line Hi Hne Hm) as (k & bad & Hk & Hbad & Hbne & Hbm & Hfirst).
    exists (S k), bad.
    split; [lia |]. split; [exact Hbad |]. split; [assumption |]. split; [assumption |].
    intros [|j] l Hj Hl; simpl in Hl; [injection Hl as <-; auto |].
    apply (Hfirst j); [lia | exact Hl].
  - exists 0%nat, (c :: l0).
    split; [lia |]. split; [reflexivity |]. split; [discriminate |]. split; [assumption |].
    intros; lia.
  - destruct i as [|i]; [simpl in Hi; injection Hi as <-; contradiction |]. simpl in Hi.
    destruct (IH i line Hi Hne Hm) as (k & bad & Hk & Hbad & Hbne & Hbm & Hfirst).
    exists (S k), bad.
    split; [lia |]. split; [exact Hbad |]. split; [assumption |]. split; [assumption |].
    intros [|j] l Hj Hl; simpl in Hl; [injection Hl as <-; auto |].
    apply (Hfirst j); [lia | exact Hl].
Qed.

Lemma load_loop_malformed (lines : list jsstring) : forall (i : nat) (acc : list NoteEntry) (k : nat) (bad : jsstring),
  lines !! k = Some bad -> bad <> [] -> malformed bad ->
  (forall (j : nat) (l : jsstring),
      (j < k)%nat -> lines !! j = Some l -> l = [] \/ ~ malformed l) ->
  exists what,
    (what = js "Invalid note store format at line " \/ what = js "Invalid note entry at line ") /\
    load_loop i lines acc = Thrown (JsError (what ++ decimal (i + k + 1) ++ js ".")).
Proof.
  induction lines as [|l0 lines IH]; intros i acc k bad Hk Hne Hm Hfirst; [discriminate |].
  destruct k as [|k].
  - injection Hk as ->. cbn [load_loop]. rewrite jsstring_eqb_nil by assumption.
    destruct (decode_line_malformed i bad Hm) as (what & Hwhat & ->).
    exists what. rewrite Nat.add_0_r. auto.
  - assert (forall j l, (j < k)%nat -> lines !! j = Some l -> l = [] \/ ~ malformed l) as Hfirst'.
    { intros j l Hj Hl. apply (Hfirst (S j)); [lia | exact Hl]. }
    cbn [load_loop].
    destruct (Hfirst 0%nat l0 ltac:(lia) eq_refl) as [-> | Hok].
    + cbn [jsstring_eqb].
      destruct (IH (S i) acc k bad Hk Hne Hm Hfirst') as (what & Hwhat & ->).
      exists what. replace (S i + k + 1)%nat with (i + S k + 1)%nat by lia. auto.
    + destruct (jsstring_eqb l0 []).
      * destruct (IH (S i) acc k bad Hk Hne Hm Hfirst') as (what & Hwhat & ->).
        exists what. replace (S i + k + 1)%nat with (i + S k + 1)%nat by lia. auto.
      * destruct (decode_line_valid i l0 Hok) as [e ->].
        destruct (IH (S i) (acc ++ [e]) k bad Hk Hne Hm Hfirst') as (what & Hwhat & ->).
        exists what. replace (S i + k + 1)%nat with (i + S k + 1)%nat by lia. auto.
Qed.

(** ** The store *)

Section StoreFacts.
Context `{Platform}.

Lemma JSON_stringify_nonempty e : jsstring_eqb (JSON_stringify e) [] = false.
Proof. reflexivity. Qed.

Lemma written_line e : utf8_roundtrip (JSON_stringify e ++ [LF]) = JSON_stringify e ++ [LF].
Proof.
  apply utf8_roundtrip_well_formed, well_formed_app.
  - apply well_formed_JSON_stringify.
  - apply wf_unit; [reflexivity | reflexivity | apply wf_nil].
Qed.

Lemma store_text_cons e es :
  store_text (e :: es) = (JSON_stringify e ++ [LF]) ++ store_text es.
Proof. reflexivity. Qed.

Lemma store_text_app es1 es2 : store_text (es1 ++ es2) = store_text es1 ++ store_text es2.
Proof. unfold store_text. rewrite map_app, concat_app. reflexivity. Qed.

Lemma appendEntry_absent (p : jsstring) (e : NoteEntry) (w : World) :
  w !! p = None ->
  appendEntry p e w = (<[p := File (JSON_stringify e ++ [LF])]> w, Returned tt).
Proof.
  intros Hw. unfold appendEntry, bind, ensureStoreDir, fs_mkdir_recursive, ret, fs_appendFile.
  rewrite Hw, written_line. reflexivity.
Qed.

Lemma appendEntry_file (p : jsstring) (e : NoteEntry) (c : jsstring) (w : World) :
  w !! p = Some (File c) ->
  appendEntry p e w = (<[p := File (c ++ JSON_stringify e ++ [LF])]> w, Returned tt).
Proof.
  intros Hw. unfold appendEntry, bind, ensureStoreDir, fs_mkdir_recursive, ret, fs_appendFile.
  rewrite Hw, written_line. reflexivity.
Qed.

Lemma append_all_file (p : jsstring) (es : list NoteEntry) : forall (c : jsstring) (w : World),
  w !! p = Some (File c) ->
  append_all p es w = (<[p := File (c ++ store_text es)]> w, Returned tt).
Proof.
  induction es as [|e es IH]; intros c w Hw.
  - change (store_text []) with (@nil N).
    rewrite app_nil_r, insert_id by assumption. reflexivity.
  - cbn [append_all]. unfold bind at 1. rewrite (appendEntry_file p e c w Hw).
    rewrite (IH (c ++ JSON_stringify e ++ [LF])) by apply lookup_insert_eq.
    rewrite insert_insert_eq, store_text_cons, <- !app_assoc. reflexivity.
Qed.

Lemma append_all_absent (p : jsstring) (e : NoteEntry) (es : list NoteEntry) (w : World) :
  w !! p = None ->
  append_all p (e :: es) w = (<[p := File (store_text (e :: es))]> w, Returned tt).
Proof.
  intros Hw. cbn [append_all]. unfold bind at 1. rewrite (appendEntry_absent p e w Hw).
  rewrite (append_all_file p es (JSON_stringify e ++ [LF])) by apply lookup_insert_eq.
  rewrite insert_insert_eq, store_text_cons. reflexivity.
Qed.

Lemma split_lines_store_text es :
  split_lines (store_text es) = List.map JSON_stringify es ++ [[]].
Proof.
  induction es as [|e es IH]; [reflexivity |].
  rewrite store_text_cons, <- app_assoc. change ([LF] ++ store_text es) with (LF :: store_text es).
  rewrite split_lines_line by apply printable_JSON_stringify. rewrite IH. reflexivity.
Qed.

Lemma load_loop_stringify es : forall i acc,
  load_loop i (List.map JSON_stringify es ++ [[]]) acc = Returned (acc ++ es).
Proof.
  induction es as [|e es IH]; intros i acc.
  - simpl. rewrite app_nil_r. reflexivity.
  - cbn [List.map app load_loop].
    rewrite JSON_stringify_nonempty, decode_stringify, IH, <- app_assoc. reflexivity.
Qed.

Lemma loadEntries_file (p c : jsstring) (w : World) :
  w !! p = Some (File c) ->
  loadEntries p w = (w, load_loop 0 (split_lines c) []).
Proof.
  intros Hw. unfold loadEntries, try_catch, bind, fs_readFile, ret, lift. rewrite Hw.
  reflexivity.
Qed.

Lemma loadEntries_absent (p : jsstring) (w : World) :
  w !! p = None -> loadEntries p w = (w, Returned []).
Proof.
  intros Hw. unfold loadEntries, try_catch, bind, fs_readFile, ret. rewrite Hw. reflexivity.
Qed.

Lemma loadEntries_faulty (p : jsstring) (e : ErrnoException) (w : World) :
  w !! p = Some (Faulty e) ->
  loadEntries p w =
  (w, if jsstring_eqb (errno_code e) (js "ENOENT") then Returned [] else Thrown (ErrnoError e)).
Proof.
  intros Hw. unfold loadEntries, try_catch, bind, fs_readFile, ret, throw. rewrite Hw.
  cbn [is_ENOENT]. destruct (jsstring_eqb (errno_code e) (js "ENOENT")); reflexivity.
Qed.

Lemma file_text_insert (p c : jsstring) (w : World) : file_text (<[p := File c]> w) p = c.
Proof. unfold file_text. rewrite lookup_insert_eq. reflexivity. Qed.

Lemma split_lines_printable l : printable l -> split_lines l = [l].
Proof.
  induction 1 as [|c l Hc Hl IH]; [reflexivity |].
  change (split_lines (c :: l)) with
    (if c =? LF then [] :: split_lines l
     else match l with
          | d :: rest' =>
            if (c =? CR) && (d =? LF) then [] :: split_lines rest'
            else push_char c (split_lines l)
          | [] => [[c]]
          end).
  destruct (N.eqb_spec c LF); [unfold LF in *; lia |].
  destruct (N.eqb_spec c CR); [unfold CR in *; lia |].
  rewrite IH. destruct l; reflexivity.
Qed.

(** C2. Starting from an absent store file, appending the entries of any
    list one call after the other succeeds, and loading the file afterwards
    returns exactly that list: as many entries, in the order of the calls,
    each equal field by field to the one appended.  What the file held after
    any first part of the calls is still the beginning of the file at the
    end, and no other file is touched. *)
Theorem append_then_load (storePath : jsstring) (w : World) (entries : list NoteEntry) :
  w !! storePath = None ->
  exists w' : World,
    append_all storePath entries w = (w', Returned tt) /\
    loadEntries storePath w' = (w', Returned entries) /\
    (forall (done more : list NoteEntry) (w1 : World),
        entries = done ++ more ->
        append_all storePath done w = (w1, Returned tt) ->
        file_text w' storePath = file_text w1 storePath ++ store_text more) /\
    (forall q : jsstring, q <> storePath -> w' !! q = w !! q).
Proof.
  intros Hw. destruct entries as [|e es].
  - exists w. split; [reflexivity |]. split; [apply loadEntries_absent; assumption |].
    split; [| reflexivity].
    intros done more w1 Heq Hrun. symmetry in Heq. apply app_eq_nil in Heq as [-> ->].
    injection Hrun as <-. unfold file_text. rewrite Hw. reflexivity.
  - exists (<[storePath := File (store_text (e :: es))]> w).
    split; [apply append_all_absent; assumption |].
    split; [| split].
    + rewrite (loadEntries_file storePath (store_text (e :: es))) by apply lookup_insert_eq.
      rewrite split_lines_store_text, load_loop_stringify. reflexivity.
    + intros done more w1 Heq Hrun. rewrite file_text_insert, Heq, store_text_app.
      destruct done as [|d ds].
      * injection Hrun as <-. unfold file_text. rewrite Hw. reflexivity.
      * rewrite append_all_absent in Hrun by assumption. injection Hrun as <-.
        rewrite file_text_insert. reflexivity.
    + intros q Hq. apply lookup_insert_ne. congruence.
Qed.

(** C3. Decoding the line an entry is encoded as gives the entry back, every
    field equal and an absent [file] or [kind] absent again; the encoding is
    a single line. *)
Theorem decode_encode_roundtrip (e : NoteEntry) (i : nat) :
  decode_line i (JSON_stringify e) = Returned e /\
  split_lines (JSON_stringify e) = [JSON_stringify e].
Proof.
  split; [apply decode_stringify |].
  apply split_lines_printable, printable_JSON_stringify.
Qed.

(** C1. Each of the three write tools, called with [approved = false],
    leaves the whole file system as it was, the store file included, and
    returns the refusal with the fixed caution message, whatever its other
    arguments are. *)
Theorem unapproved_write_refused (storePath : jsstring) (d : Drawn)
    (t : jsstring) (f ts k : option jsstring) (w : World) :
  notes_store storePath d t false f ts k w = (w, Returned (error_result REFUSAL)) /\
  teach_request storePath d t false f ts w = (w, Returned (error_result REFUSAL)) /\
  teach_note storePath d t false f ts w = (w, Returned (error_result REFUSAL)).
Proof. repeat split. Qed.

(** C5. Loading a path where no file exists returns the empty sequence and
    is no error; a read that fails with any other error than ENOENT throws
    that same error. *)
Theorem loadEntries_missing_or_failing (storePath : jsstring) (w : World) :
  (w !! storePath = None -> loadEntries storePath w = (w, Returned [])) /\
  (forall e : ErrnoException,
      w !! storePath = Some (Faulty e) -> errno_code e <> js "ENOENT" ->
      loadEntries storePath w = (w, Thrown (ErrnoError e))).
Proof.
  split; [apply loadEntries_absent |].
  intros e Hw Hcode. rewrite (loadEntries_faulty storePath e w Hw).
  destruct (jsstring_eqb (errno_code e) (js "ENOENT")) eqn:Heq; [| reflexivity].
  apply jsstring_eqb_eq in Heq. contradiction.
Qed.

(** C8. Both echo tools return the string they are given, whatever it is,
    as the text of a result that is no error, and change nothing. *)
Theorem echo_identity (s : jsstring) (w : World) :
  questions_ask s w = (w, Returned (text_result s)) /\
  teach_ask s w = (w, Returned (text_result s)) /\
  content_text <$> content (text_result s) = [s].
Proof. repeat split. Qed.

(** C4. When some non-empty line of the store file fails to decode (it is
    not JSON text, or a required field is missing, or a field has the wrong
    type), loading throws, so that no entry is returned, and the message
    names the 1-based position [k + 1] of the first line that fails; that is
    the given line whenever no line before it fails. *)
Theorem loadEntries_malformed_line (storePath : jsstring) (w : World) (content : jsstring)
    (i : nat) (line : jsstring) :
  w !! storePath = Some (File content) ->
  split_lines content !! i = Some line ->
  line <> [] ->
  malformed line ->
  exists (k : nat) (bad what : jsstring),
    (k <= i)%nat /\
    split_lines content !! k = Some bad /\ bad <> [] /\ malformed bad /\
    (forall (j : nat) (l : jsstring),
        (j < k)%nat -> split_lines content !! j = Some l -> l = [] \/ ~ malformed l) /\
    ((forall (j : nat) (l : jsstring),
        (j < i)%nat -> split_lines content !! j = Some l -> l = [] \/ ~ malformed l) -> k = i) /\
    (what = js "Invalid note store format at line " \/ what = js "Invalid note entry at line ") /\
    loadEntries storePath w = (w, Thrown (JsError (what ++ decimal (k + 1) ++ js "."))).
Proof.
  intros Hw Hi Hne Hm.
  destruct (first_malformed _ i line Hi Hne Hm) as (k & bad & Hk & Hbad & Hbne & Hbm & Hfirst).
  destruct (load_loop_malformed _ 0 [] k bad Hbad Hbne Hbm Hfirst) as (what & Hwhat & Hloop).
  exists k, bad, what. repeat split; auto.
  - intros Hall. destruct (Nat.eq_dec k i) as [|Hki]; [assumption |].
    destruct (Hall k bad ltac:(lia) Hbad); contradiction.
  - rewrite (loadEntries_file storePath content w Hw), Hloop. reflexivity.
Qed.

Lemma kind_is_spec q e : kind_is q e = true <-> kind e = Some q.
Proof.
  unfold kind_is. destruct (kind e) as [k|].
  - rewrite jsstring_eqb_eq. split; congruence.
  - split; discriminate.
Qed.

Lemma filter_keeps_exactly {A} (P : A -> Prop) (f : A -> bool) (l : list A) :
  (forall x, f x = true <-> P x) -> keeps_exactly P l (List.filter f l).
Proof.
  intros Hf. induction l as [|x l IH]; simpl; [constructor |].
  destruct (f x) eqn:Hx.
  - apply keeps_take; [apply Hf, Hx | exact IH].
  - apply keeps_skip; [rewrite <- Hf; congruence | exact IH].
Qed.

(** C6. The by-kind tool keeps exactly the loaded entries whose kind is the
    query string, and the substring tool exactly those whose text has the
    query as a substring, each in the order of the store and compared code
    unit by code unit; an entry without kind is never kept by kind. *)
Theorem filters_exact (storePath query : jsstring) (w : World) (entries : list NoteEntry) :
  loadEntries storePath w = (w, Returned entries) ->
  exists byKind containing : list NoteEntry,
    keeps_exactly (fun e => kind e = Some query) entries byKind /\
    keeps_exactly (fun e => occurs query (text e)) entries containing /\
    notes_list_kind storePath query w =
      (w, Returned (text_result
            (formatEntries byKind (js "No notes found for kind " ++ query ++ js ".")))) /\
    notes_find storePath query w =
      (w, Returned (text_result
            (formatEntries containing (js "No notes matched the exact substring.")))).
Proof.
  intros Hload.
  exists (List.filter (kind_is query) entries),
         (List.filter (fun e => includes (text e) query) entries).
  split; [apply filter_keeps_exactly; intros; apply kind_is_spec |].
  split; [apply filter_keeps_exactly; intros; apply includes_spec |].
  unfold notes_list_kind, notes_find, bind. rewrite Hload. split; reflexivity.
Qed.

Lemma find_none_id (target : jsstring) (entries : list NoteEntry) :
  (forall e, In e entries -> id e <> target) ->
  List.find (fun item => jsstring_eqb (id item) target) entries = None.
Proof.
  induction entries as [|x l IH]; intros Hall; [reflexivity |]. simpl.
  destruct (jsstring_eqb (id x) target) eqn:Hx.
  - apply jsstring_eqb_eq in Hx. exfalso. apply (Hall x); [left; reflexivity | exact Hx].
  - apply IH. intros e He. apply Hall. right. exact He.
Qed.

Lemma find_first_id (target : jsstring) (before : list NoteEntry) e after :
  id e = target -> (forall x, In x before -> id x <> target) ->
  List.find (fun item => jsstring_eqb (id item) target) (before ++ e :: after) = Some e.
Proof.
  intros He. induction before as [|x l IH]; intros Hall; simpl.
  - replace (jsstring_eqb (id e) target) with true; [reflexivity |].
    symmetry. apply jsstring_eqb_eq. exact He.
  - destruct (jsstring_eqb (id x) target) eqn:Hx.
    + apply jsstring_eqb_eq in Hx. exfalso. apply (Hall x); [left; reflexivity | exact Hx].
    + apply IH. intros y Hy. apply Hall. right. exact Hy.
Qed.

(** C9 (amended). When no loaded entry has the id asked for, get-by-id
    returns, without throwing, a result flagged [isError] that carries the
    not-found message; when one has, it returns the rendering of the first
    such entry of the store, not flagged. *)
Theorem notes_get_result (storePath target : jsstring) (w : World) (entries : list NoteEntry) :
  loadEntries storePath w = (w, Returned entries) ->
  ((forall e, In e entries -> id e <> target) ->
   notes_get storePath target w =
     (w, Returned (error_result (js "No note found for id " ++ target ++ js ".")))) /\
  (forall (before : list NoteEntry) (e : NoteEntry) (after : list NoteEntry),
     entries = before ++ e :: after -> id e = target ->
     (forall x, In x before -> id x <> target) ->
     notes_get storePath target w = (w, Returned (text_result (formatEntry e)))).
Proof.
  intros Hload. unfold notes_get, bind. rewrite Hload. split.
  - intros Hall. rewrite find_none_id by assumption. reflexivity.
  - intros before e after -> He Hall. rewrite find_first_id by assumption. reflexivity.
Qed.

Lemma formatEntry_entry_lines entry : formatEntry entry = join [LF] (entry_lines entry).
Proof.
  unfold formatEntry, entry_lines.
  destruct (kind entry) as [[|c k]|], (file entry) as [[|c' f]|]; reflexivity.
Qed.

(** C7 (amended). An entry is rendered as its id line, its timestamp line, a
    kind line when kind is present and not empty, a file line when file is
    present and not empty, the line [text:] and then the text as it is,
    joined by line feeds.  An approved store-teach-note call without file
    answers with the five parts id, timestamp, [kind: teach.note], [text:]
    and the text, which are exactly the five lines of the answer when id,
    timestamp and text contain no line feed. *)
Theorem formatEntry_rendering (entry : NoteEntry) :
  formatEntry entry = join [LF] (entry_lines entry) /\
  (exists head : jsstring, formatEntry entry = head ++ js "text:" ++ [LF] ++ text entry) /\
  (forall (storePath : jsstring) (d : Drawn) (t : jsstring) (ts : option jsstring) (w : World),
     (forall e, w !! storePath <> Some (Faulty e)) ->
     let lines := [js "id: " ++ randomUUID d;
                   js "timestamp: " ++ default (now_toISOString d) ts;
                   js "kind: teach.note"; js "text:"; t] in
     (exists w' : World,
        teach_note storePath d t true None ts w =
          (w', Returned (text_result (join [LF] lines)))) /\
     (~ In LF (randomUUID d) -> ~ In LF (default (now_toISOString d) ts) -> ~ In LF t ->
      split_on LF (join [LF] lines) = lines)).
Proof.
  split; [apply formatEntry_entry_lines |]. split.
  - rewrite formatEntry_entry_lines. unfold entry_lines.
    rewrite !app_assoc. apply join_last2.
  - intros storePath d t ts w Hw lines. split.
    + unfold teach_note. cbn [negb]. unfold bind.
      assert (formatEntry (makeEntry d t None ts (Some (js "teach.note"))) = join [LF] lines)
        as Hfmt by (rewrite formatEntry_entry_lines; reflexivity).
      destruct (w !! storePath) as [[c|e]|] eqn:Hnode.
      * rewrite (appendEntry_file _ _ c w Hnode). unfold ret. rewrite Hfmt. eauto.
      * exfalso. exact (Hw e eq_refl).
      * rewrite (appendEntry_absent _ _ w Hnode). unfold ret. rewrite Hfmt. eauto.
    + intros Hid Hts Ht. apply split_on_join; [discriminate |].
      repeat constructor; try assumption.
      * apply no_LF_labelled; [reflexivity | assumption].
      * apply no_LF_labelled; [reflexivity | assumption].
      * apply plain_ascii_no_LF. reflexivity.
      * apply plain_ascii_no_LF. reflexivity.
Qed.

Lemma notes_get_missing (storePath target : jsstring) (w : World) :
  w !! storePath = None ->
  notes_get storePath target w =
    (w, Returned (error_result (js "No note found for id " ++ target ++ js "."))).
Proof.
  intros Hw. unfold notes_get, bind. rewrite (loadEntries_absent storePath w Hw). reflexivity.
Qed.

(** C10. With the variable unset or set to the empty string the store path
    is the default one, [.threadkeeper/notes.jsonl] joined to the home
    directory; with any other value it is that value resolved, which is an
    absolute path. *)
Theorem resolveStorePath_cases (env : gmap jsstring jsstring) :
  (env !! js "THREADKEEPER_STORE_PATH" = None \/
   env !! js "THREADKEEPER_STORE_PATH" = Some [] ->
   resolveStorePath env = path_join [os_homedir; js ".threadkeeper"; js "notes.jsonl"]) /\
  (forall override : jsstring,
     env !! js "THREADKEEPER_STORE_PATH" = Some override -> override <> [] ->
     resolveStorePath env = path_resolve [override] /\
     path_isAbsolute (resolveStorePath env) = true).
Proof.
  unfold resolveStorePath. split.
  - intros [-> | ->]; reflexivity.
  - intros override -> Hne. destruct override as [|c override]; [congruence |].
    split; [reflexivity | apply path_resolve_isAbsolute].
Qed.

End StoreFacts.

(** ** Worked instances *)

Example JSON_parse_nested :
  JSON_parse (jsq "{'a': [1, true, null, 'x\nA'], 'a' : {}, 'n': -0.5e+3 }") =
  Some (JObject [(js "a", JArray [JNumber (js "1"); JBool true; JNull;
                                  JString (js "x" ++ [LF] ++ js "A")]);
                 (js "a", JObject []); (js "n", JNumber (js "-0.5e+3"))]).
Proof. vm_compute. reflexivity. Qed.

Example JSON_parse_rejects :
  List.map JSON_parse [jsq "{'a':1,}"; jsq "[01]"; jsq "'a"; jsq "{'a' 1}"; js "nul"; js " "; jsq "'\x'"] =
  [None; None; None; None; None; None; None].
Proof. vm_compute. reflexivity. Qed.

Example JSON_stringify_note2 :
  JSON_stringify note2 =
  jsq "{'id':'n2','timestamp':'2026-01-02T00:00:00.000Z','text':'first line\nsecond \'"
  ++ [55357; 56832] ++ jsq "\ude00','file':'src/index.ts'}".
Proof. vm_compute. reflexivity. Qed.

Example split_lines_mixed :
  split_lines (js "a" ++ [CR; LF] ++ js "b" ++ [LF; CR; CR; LF; CR]) =
  [js "a"; js "b"; [CR]; [CR]].
Proof. vm_compute. reflexivity. Qed.

Example posix_paths :
  (@path_join linux [@os_homedir linux; js ".threadkeeper"; js "notes.jsonl"],
   @path_resolve linux [js "../x/./notes.jsonl"], @path_resolve linux [js "/a//b/"],
   @path_dirname linux store, @path_dirname linux (js "notes.jsonl")) =
  (store, js "/x/notes.jsonl", js "/a/b", js "/home/u/.threadkeeper", js ".").
Proof. vm_compute. reflexivity. Qed.

Example filters_case_sensitive :
  List.filter (kind_is (js "teach.note")) [note1; note2; note3] = [note1] /\
  List.filter (fun e => includes (text e) (js "explicit")) [note1; note2; note3] = [note1] /\
  List.filter (kind_is (js "teach")) [note1; note2; note3] = [].
Proof. vm_compute. repeat split. Qed.

Example list_kind_nonexistent :
  notes_list_kind store (js "nonexistent") (stored (store_text [note1; note2])) =
  (stored (store_text [note1; note2]),
   Returned (text_result (js "No notes found for kind nonexistent."))).
Proof. vm_compute. reflexivity. Qed.

Lemma malformed_check line :
  match JSON_parse line with Some v => negb (isNoteEntry v) | None => true end = true ->
  malformed line.
Proof.
  intros Hc v Hv. rewrite Hv in Hc. rewrite <- isNoteEntry_spec.
  destruct (isNoteEntry v); [discriminate | congruence].
Qed.

Lemma unapproved_write_refused_witness :
  @notes_store linux store drawn1 (js "x") false None None None (stored (store_text [note1])) =
  (stored (store_text [note1]), Returned (error_result REFUSAL)).
Proof.
  exact (proj1 (@unapproved_write_refused linux store drawn1 (js "x") None None None
                  (stored (store_text [note1])))).
Defined.

Lemma append_then_load_witness :
  (∅ : World) !! store = None /\
  exists w' : World,
    @append_all linux store [note1; note2; note3] ∅ = (w', Returned tt) /\
    loadEntries store w' = (w', Returned [note1; note2; note3]).
Proof.
  split; [reflexivity |].
  destruct (@append_then_load linux store ∅ [note1; note2; note3] (lookup_empty store))
    as (w' & Happend & Hload & _).
  exists w'. split; assumption.
Defined.

Lemma loadEntries_malformed_line_witness :
  exists (k : nat) (what : jsstring),
    k = 2%nat /\
    loadEntries store (stored bad_content) =
      (stored bad_content, Thrown (JsError (what ++ decimal (k + 1) ++ js "."))).
Proof.
  destruct (loadEntries_malformed_line store (stored bad_content) bad_content 2 wrong_type_line)
    as (k & bad & what & _ & _ & _ & _ & _ & Hfirst & _ & Hload).
  - reflexivity.
  - vm_compute. reflexivity.
  - discriminate.
  - apply malformed_check. vm_compute. reflexivity.
  - exists k, what. split; [| exact Hload].
    apply Hfirst. intros j l Hj Hl.
    destruct j as [|[|j]]; [right | left | lia].
    + vm_compute in Hl. injection Hl as <-. intros Hm.
      apply (Hm (JObject (List.map string_member (entry_members note1)))).
      * vm_compute. reflexivity.
      * apply isNoteEntry_spec. vm_compute. reflexivity.
    + vm_compute in Hl. injection Hl as <-. reflexivity.
Defined.

Lemma loadEntries_missing_or_failing_witness :
  loadEntries store ∅ = (∅, Returned []) /\
  loadEntries store {[ store := Faulty eacces ]} =
    ({[ store := Faulty eacces ]}, Thrown (ErrnoError eacces)).
Proof.
  split.
  - apply (proj1 (loadEntries_missing_or_failing store ∅)). reflexivity.
  - apply (proj2 (loadEntries_missing_or_failing store {[ store := Faulty eacces ]}) eacces).
    + reflexivity.
    + discriminate.
Defined.

Lemma filters_exact_witness :
  let w := stored (store_text [note1; note2; note3]) in
  loadEntries store w = (w, Returned [note1; note2; note3]) /\
  exists byKind containing : list NoteEntry,
    keeps_exactly (fun e => kind e = Some (js "teach.note")) [note1; note2; note3] byKind /\
    keeps_exactly (fun e => occurs (js "teach.note") (text e)) [note1; note2; note3] containing.
Proof.
  intros w.
  assert (loadEntries store w = (w, Returned [note1; note2; note3])) as Hload
    by (vm_compute; reflexivity).
  split; [exact Hload |].
  destruct (filters_exact store (js "teach.note") w [note1; note2; note3] Hload)
    as (byKind & containing & Hkind & Hcontaining & _).
  exists byKind, containing. split; assumption.
Defined.

Lemma formatEntry_rendering_witness :
  exists w' : World,
    @teach_note linux store drawn1 (js "use explicit types") true None None ∅ =
    (w', Returned (text_result (join [LF]
       [js "id: 3b241101-e2bb-4255-8caf-4136c566a962";
        js "timestamp: 2026-01-01T00:00:00.000Z";
        js "kind: teach.note"; js "text:"; js "use explicit types"]))).
Proof.
  destruct (proj2 (proj2 (@formatEntry_rendering linux note1))
              store drawn1 (js "use explicit types") None ∅) as [Hrun _].
  - intros e. rewrite lookup_empty. discriminate.
  - exact Hrun.
Defined.

Lemma notes_get_result_witness :
  let w := stored (store_text [note1; note2; note3]) in
  notes_get store (js "nope") w =
    (w, Returned (error_result (js "No note found for id nope."))) /\
  notes_get store (js "n2") w = (w, Returned (text_result (formatEntry note2))).
Proof.
  intros w.
  assert (loadEntries store w = (w, Returned [note1; note2; note3])) as Hload
    by (vm_compute; reflexivity).
  split.
  - apply (proj1 (notes_get_result store (js "nope") w [note1; note2; note3] Hload)).
    intros e [<-|[<-|[<-|[]]]]; discriminate.
  - apply (proj2 (notes_get_result store (js "n2") w [note1; note2; note3] Hload)
             [note1] note2 [note3]); [reflexivity | reflexivity |].
    intros e [<-|[]]. discriminate.
Defined.

Lemma resolveStorePath_cases_witness :
  @resolveStorePath linux ∅ = js "/home/u/.threadkeeper/notes.jsonl" /\
  @resolveStorePath linux {[ STORE_PATH_VARIABLE := [] ]} = js "/home/u/.threadkeeper/notes.jsonl" /\
  @resolveStorePath linux {[ STORE_PATH_VARIABLE := js "notes/../store.jsonl" ]} =
    js "/work/store.jsonl".
Proof.
  split; [| split].
  - rewrite (proj1 (@resolveStorePath_cases linux ∅)) by (left; reflexivity).
    vm_compute. reflexivity.
  - rewrite (proj1 (@resolveStorePath_cases linux {[ STORE_PATH_VARIABLE := [] ]}))
      by (right; reflexivity).
    vm_compute. reflexivity.
  - destruct (proj2 (@resolveStorePath_cases linux
                       {[ STORE_PATH_VARIABLE := js "notes/../store.jsonl" ]})
                (js "notes/../store.jsonl")) as [-> _]; [reflexivity | discriminate |].
    vm_compute. reflexivity.
Defined.

(** ** Where the code departs from the specification's words *)

(** C7, as worded. An entry whose kind is present but empty is rendered
    without a kind line. *)
Lemma formatEntry_empty_kind_counterexample :
  kind note_empty_kind = Some [] /\
  formatEntry note_empty_kind <> formatOne_as_specified note_empty_kind.
Proof. split; [reflexivity | vm_compute; discriminate]. Qed.

(** C9, as worded. The answer for an id that is not in the store is flagged
    as an error. *)
Lemma notes_get_not_found_counterexample :
  ~ exists r : ToolResult,
      notes_get store (js "nope") ∅ = (∅, Returned r) /\ isError r = false.
Proof.
  intros (r & Hr & Hflag).
  rewrite (notes_get_missing store (js "nope") ∅ (lookup_empty store)) in Hr.
  injection Hr as <-. discriminate.
Qed.

(** * Further properties *)

(** ** Lines of a text that grows *)

Lemma split_lines_cons_nonempty s : split_lines s <> [].
Proof.
  destruct s as [|c s]; [discriminate |].
  cbn [split_lines]. destruct (c =? LF); [discriminate |].
  destruct s as [|d s]; [discriminate |].
  destruct ((c =? CR) && (d =? LF)); [discriminate |].
  destruct (split_lines (d :: s)); discriminate.
Qed.

Lemma split_lines_unfold c s :
  split_lines (c :: s) =
  if c =? LF then [] :: split_lines s
  else match s with
       | d :: rest' =>
         if (c =? CR) && (d =? LF) then [] :: split_lines rest'
         else push_char c (split_lines s)
       | [] => [[c]]
       end.
Proof. reflexivity. Qed.

Lemma glue_lines_cons l L X : L <> [] -> glue_lines (l :: L) X = l :: glue_lines L X.
Proof.
  intros HL. destruct X as [|l0 ls]; [reflexivity |]. unfold glue_lines.
  destruct L as [|l' L]; [congruence | reflexivity].
Qed.

Lemma push_char_glue c L X :
  L <> [] -> X <> [] -> push_char c (glue_lines L X) = glue_lines (push_char c L) X.
Proof.
  intros HL HX. destruct X as [|l0 ls]; [congruence |].
  destruct L as [|l [|l' L]]; [congruence | reflexivity | reflexivity].
Qed.

(** The lines of two texts put together, when the second does not start
    with a line feed. *)
Lemma split_lines_app a h t :
  h <> LF ->
  split_lines (a ++ h :: t) = glue_lines (split_lines a) (split_lines (h :: t)).
Proof.
  intros Hh.
  pose proof (split_lines_cons_nonempty (h :: t)) as HX.
  induction a as [|c|c d s IHs IHd] using list_ind2.
  - change (split_lines (h :: t) = glue_lines [[]] (split_lines (h :: t))).
    destruct (split_lines (h :: t)); [congruence | reflexivity].
  - change (split_lines (c :: h :: t) = glue_lines (split_lines [c]) (split_lines (h :: t))).
    rewrite (split_lines_unfold c (h :: t)), (split_lines_unfold c []).
    destruct (c =? LF).
    + change (split_lines []) with [@nil N].
      destruct (split_lines (h :: t)); [congruence | reflexivity].
    + destruct (N.eqb_spec h LF); [contradiction |]. rewrite andb_false_r.
      destruct (split_lines (h :: t)); [congruence | reflexivity].
  - change ((c :: d :: s) ++ h :: t) with (c :: d :: (s ++ h :: t)).
    rewrite (split_lines_unfold c (d :: (s ++ h :: t))), (split_lines_unfold c (d :: s)).
    change (d :: (s ++ h :: t)) with ((d :: s) ++ h :: t).
    destruct (c =? LF).
    + rewrite IHd. symmetry. apply glue_lines_cons, split_lines_cons_nonempty.
    + cbn [app]. destruct ((c =? CR) && (d =? LF)).
      * rewrite IHs. symmetry. apply glue_lines_cons, split_lines_cons_nonempty.
      * change (d :: (s ++ h :: t)) with ((d :: s) ++ h :: t). rewrite IHd.
        apply push_char_glue; [apply split_lines_cons_nonempty | assumption].
Qed.

Lemma load_loop_app l1 : forall l2 i acc,
  load_loop i (l1 ++ l2) acc =
  match load_loop i l1 acc with
  | Returned acc' => load_loop (i + length l1) l2 acc'
  | Thrown e => Thrown e
  end.
Proof.
  induction l1 as [|l l1 IH]; intros l2 i acc.
  - cbn [app load_loop length]. rewrite Nat.add_0_r. reflexivity.
  - cbn [app load_loop length]. replace (i + S (length l1))%nat with (S i + length l1)%nat by lia.
    destruct (jsstring_eqb l []); [apply IH |].
    destruct (decode_line i l); [apply IH | reflexivity].
Qed.

Lemma JSON_stringify_head e : exists t, JSON_stringify e = ch "{" :: t.
Proof. eexists. reflexivity. Qed.

Lemma split_lines_appended (c : jsstring) (e : NoteEntry) :
  split_lines (c ++ JSON_stringify e ++ [LF]) =
  removelast (split_lines c) ++ [List.last (split_lines c) [] ++ JSON_stringify e; []].
Proof.
  destruct (JSON_stringify_head e) as [t Ht].
  assert (split_lines (JSON_stringify e ++ [LF]) = [JSON_stringify e; []]) as Hline
    by (apply split_lines_line, printable_JSON_stringify).
  rewrite Ht in *. change ((ch "{" :: t) ++ [LF]) with (ch "{" :: (t ++ [LF])) in *.
  rewrite split_lines_app by discriminate. rewrite Hline. reflexivity.
Qed.

Section AppendFacts.
Context `{Platform}.

Lemma appendEntry_usable (p : jsstring) (e : NoteEntry) (w : World) :
  usable w p ->
  appendEntry p e w =
    (<[p := File (file_text w p ++ JSON_stringify e ++ [LF])]> w, Returned tt).
Proof.
  intros Hu. unfold file_text. destruct (w !! p) as [[c|err]|] eqn:Hw.
  - apply appendEntry_file. exact Hw.
  - exfalso. exact (Hu err Hw).
  - apply appendEntry_absent. exact Hw.
Qed.

Lemma loadEntries_usable (p : jsstring) (w : World) :
  usable w p ->
  loadEntries p w = (w, load_loop 0 (split_lines (file_text w p)) []).
Proof.
  intros Hu. unfold file_text. destruct (w !! p) as [[c|err]|] eqn:Hw.
  - apply loadEntries_file. exact Hw.
  - exfalso. exact (Hu err Hw).
  - rewrite loadEntries_absent by exact Hw. reflexivity.
Qed.

Lemma usable_insert (p c : jsstring) (w : World) : usable (<[p := File c]> w) p.
Proof. intros e. rewrite lookup_insert_eq. discriminate. Qed.

(** Appending to a store whose text ends with a line end (or is empty)
    adds the entry after what was loaded before. *)
Lemma append_keeps_history (p : jsstring) (e : NoteEntry) (w : World)
    (old : list NoteEntry) (L : list jsstring) :
  usable w p ->
  split_lines (file_text w p) = L ++ [[]] ->
  loadEntries p w = (w, Returned old) ->
  exists w' : World,
    appendEntry p e w = (w', Returned tt) /\
    file_text w' p = file_text w p ++ JSON_stringify e ++ [LF] /\
    usable w' p /\
    split_lines (file_text w' p) = (L ++ [JSON_stringify e]) ++ [[]] /\
    loadEntries p w' = (w', Returned (old ++ [e])) /\
    (forall q : jsstring, q <> p -> w' !! q = w !! q).
Proof.
  intros Hu HL Hload.
  exists (<[p := File (file_text w p ++ JSON_stringify e ++ [LF])]> w).
  assert (split_lines (file_text w p ++ JSON_stringify e ++ [LF]) =
          (L ++ [JSON_stringify e]) ++ [[]]) as Hsplit.
  { rewrite split_lines_appended, HL, removelast_last, last_last, <- app_assoc. reflexivity. }
  split; [apply appendEntry_usable; exact Hu |].
  split; [apply file_text_insert |].
  split; [apply usable_insert |].
  split; [rewrite file_text_insert; exact Hsplit |].
  split; [| intros q Hq; apply lookup_insert_ne; congruence].
  rewrite loadEntries_usable by apply usable_insert.
  rewrite file_text_insert, Hsplit.
  rewrite (loadEntries_usable p w Hu), HL in Hload. injection Hload as Hload.
  rewrite load_loop_app in Hload. rewrite <- app_assoc, load_loop_app.
  destruct (load_loop 0 L []) as [acc|err]; [| discriminate].
  cbn [load_loop jsstring_eqb] in Hload. injection Hload as ->.
  cbn [app load_loop]. rewrite JSON_stringify_nonempty, decode_stringify. reflexivity.
Qed.

End AppendFacts.

(** *** Text followed by an opening brace *)

Section BraceAfter.
Variable t : jsstring.
Let y : jsstring := ch "{" :: t.

Lemma skip_ws_brace s : skip_ws (s ++ y) = skip_ws s ++ y.
Proof.
  induction s as [|c s IH]; [reflexivity |].
  cbn [app skip_ws]. destruct (is_ws c); [exact IH | reflexivity].
Qed.

Lemma expect_brace c s r : expect c s = Some r -> expect c (s ++ y) = Some (r ++ y).
Proof.
  destruct s as [|d s]; [discriminate |]. cbn [app expect].
  destruct (d =? c); [intros [= ->]; reflexivity | discriminate].
Qed.

Lemma expect_brace_none c s : c <> ch "{" -> expect c s = None -> expect c (s ++ y) = None.
Proof.
  intros Hc. destruct s as [|d s].
  - intros _. cbn [app]. unfold y, expect.
    destruct (N.eqb_spec (ch "{") c); [congruence | reflexivity].
  - cbn [app expect]. destruct (d =? c); [discriminate | reflexivity].
Qed.

Lemma cons_result_brace c o x r (o' : option (jsstring * jsstring)) :
  cons_result c o = Some (x, r) ->
  (forall x' r', o = Some (x', r') -> o' = Some (x', r' ++ y)) ->
  cons_result c o' = Some (x, r ++ y).
Proof.
  destruct o as [[x' r']|]; [| discriminate]. cbn [cons_result].
  intros [= <- <-] Ho. rewrite (Ho x' r' eq_refl). reflexivity.
Qed.

Lemma parse_string_body_brace s : forall x r,
  parse_string_body s = Some (x, r) -> parse_string_body (s ++ y) = Some (x, r ++ y).
Proof.
  induction s as [s IH] using (induction_ltof1 _ (@length N)). unfold ltof in IH.
  intros x r. destruct s as [|c s]; [discriminate |]. cbn [app parse_string_body].
  destruct (c =? DQUOTE); [intros [= <- <-]; reflexivity |].
  destruct (c =? BACKSLASH).
  - destruct s as [|e s]; [discriminate |]. cbn [app].
    destruct (e =? ch "u").
    + destruct s as [|h1 [|h2 [|h3 [|h4 s]]]]; try discriminate. cbn [app].
      destruct (hex4 h1 h2 h3 h4); [| discriminate].
      intros Hc. eapply cons_result_brace; [exact Hc |].
      intros x' r' Hr'. apply IH; [simpl; lia | exact Hr'].
    + destruct (unescape e); [| discriminate].
      intros Hc. eapply cons_result_brace; [exact Hc |].
      intros x' r' Hr'. apply IH; [simpl; lia | exact Hr'].
  - destruct (c <? 32); [discriminate |].
    intros Hc. eapply cons_result_brace; [exact Hc |].
    intros x' r' Hr'. apply IH; [simpl; lia | exact Hr'].
Qed.

Lemma strip_prefix_brace p : forall s r,
  strip_prefix p s = Some r -> strip_prefix p (s ++ y) = Some (r ++ y).
Proof.
  induction p as [|a p IH]; intros s r; cbn [strip_prefix].
  - intros [= ->]. reflexivity.
  - destruct s as [|c s]; [discriminate |]. cbn [app strip_prefix].
    destruct (c =? a); [apply IH | discriminate].
Qed.

Lemma span_digits_brace s :
  span_digits (s ++ y) = (fst (span_digits s), snd (span_digits s) ++ y).
Proof.
  induction s as [|c s IH]; [reflexivity |].
  cbn [app span_digits]. destruct (is_digit c); [| reflexivity].
  rewrite IH. destruct (span_digits s); reflexivity.
Qed.

Lemma digits1_brace s ds r : digits1 s = Some (ds, r) -> digits1 (s ++ y) = Some (ds, r ++ y).
Proof.
  unfold digits1. rewrite span_digits_brace.
  destruct (span_digits s) as [[|d ds'] r']; [discriminate |].
  intros [= <- <-]. reflexivity.
Qed.

Lemma int_part_brace s i r : int_part s = Some (i, r) -> int_part (s ++ y) = Some (i, r ++ y).
Proof.
  destruct s as [|c s]; [discriminate |]. cbn [app]. unfold int_part.
  destruct (c =? 48); [intros [= <- <-]; reflexivity |].
  destruct (is_digit c); [| discriminate].
  rewrite span_digits_brace. destruct (span_digits s). intros [= <- <-]. reflexivity.
Qed.

Lemma frac_part_brace s f r : frac_part s = Some (f, r) -> frac_part (s ++ y) = Some (f, r ++ y).
Proof.
  destruct s as [|c s].
  - intros [= <- <-]. reflexivity.
  - cbn [app]. unfold frac_part. destruct (c =? ch "."); [| intros [= <- <-]; reflexivity].
    destruct (digits1 s) as [[ds r']|] eqn:Hd; [| discriminate].
    intros [= <- <-]. rewrite (digits1_brace s ds r' Hd). reflexivity.
Qed.

Lemma exp_part_brace s e r : exp_part s = Some (e, r) -> exp_part (s ++ y) = Some (e, r ++ y).
Proof.
  destruct s as [|c s].
  - intros [= <- <-]. reflexivity.
  - cbn [app]. unfold exp_part.
    destruct ((c =? ch "e") || (c =? ch "E")); [| intros [= <- <-]; reflexivity].
    destruct s as [|sg s]; [discriminate |]. cbn [app].
    destruct ((sg =? ch "+") || (sg =? ch "-")).
    + destruct (digits1 s) as [[ds r']|] eqn:Hd; [| discriminate].
      intros [= <- <-]. rewrite (digits1_brace s ds r' Hd). reflexivity.
    + destruct (digits1 (sg :: s)) as [[ds r']|] eqn:Hd; [| discriminate].
      intros [= <- <-]. change (sg :: s ++ y) with ((sg :: s) ++ y).
      rewrite (digits1_brace (sg :: s) ds r' Hd). reflexivity.
Qed.

Lemma parse_number_brace s l r :
  parse_number s = Some (l, r) -> parse_number (s ++ y) = Some (l, r ++ y).
Proof.
  unfold parse_number. destruct s as [|c s]; [discriminate |]. cbn [app].
  destruct (c =? ch "-").
  - destruct (int_part s) as [[i s1]|] eqn:Hi; [| discriminate].
    destruct (frac_part s1) as [[f s2]|] eqn:Hf; [| discriminate].
    destruct (exp_part s2) as [[e s3]|] eqn:He; [| discriminate].
    intros [= <- <-].
    rewrite (int_part_brace _ _ _ Hi), (frac_part_brace _ _ _ Hf), (exp_part_brace _ _ _ He).
    reflexivity.
  - destruct (int_part (c :: s)) as [[i s1]|] eqn:Hi; [| discriminate].
    destruct (frac_part s1) as [[f s2]|] eqn:Hf; [| discriminate].
    destruct (exp_part s2) as [[e s3]|] eqn:He; [| discriminate].
    intros [= <- <-]. change (c :: s ++ y) with ((c :: s) ++ y).
    rewrite (int_part_brace _ _ _ Hi), (frac_part_brace _ _ _ Hf), (exp_part_brace _ _ _ He).
    reflexivity.
Qed.

(** A value that is parsed is parsed the same with more text after it. *)
Lemma parse_brace fuel :
  (forall s v r, parse_value fuel s = Some (v, r) ->
     parse_value fuel (s ++ y) = Some (v, r ++ y)) /\
  (forall s ms r, parse_members fuel s = Some (ms, r) ->
     parse_members fuel (s ++ y) = Some (ms, r ++ y)) /\
  (forall s vs r, parse_elements fuel s = Some (vs, r) ->
     parse_elements fuel (s ++ y) = Some (vs, r ++ y)).
Proof.
  induction fuel as [|fuel (IHv & IHm & IHe)]; [repeat split; discriminate |].
  split; [| split].
  - intros s v r. destruct s as [|c rest]; [discriminate |].
    change ((c :: rest) ++ y) with (c :: (rest ++ y)).
    rewrite !parse_value_unfold. rewrite skip_ws_brace.
    change (c :: (rest ++ y)) with ((c :: rest) ++ y).
    destruct (c =? ch "{").
    { destruct (expect (ch "}") (skip_ws rest)) as [r0|] eqn:Hx.
      - intros [= <- <-]. rewrite (expect_brace _ _ _ Hx). reflexivity.
      - rewrite (expect_brace_none (ch "}") _ ltac:(intros Hc; vm_compute in Hc; discriminate) Hx).
        destruct (parse_members fuel (skip_ws rest)) as [[ms r0]|] eqn:Hms; [| discriminate].
        intros [= <- <-]. rewrite (IHm _ _ _ Hms). reflexivity. }
    destruct (c =? ch "[").
    { destruct (expect (ch "]") (skip_ws rest)) as [r0|] eqn:Hx.
      - intros [= <- <-]. rewrite (expect_brace _ _ _ Hx). reflexivity.
      - rewrite (expect_brace_none (ch "]") _ ltac:(intros Hc; vm_compute in Hc; discriminate) Hx).
        destruct (parse_elements fuel (skip_ws rest)) as [[vs r0]|] eqn:Hvs; [| discriminate].
        intros [= <- <-]. rewrite (IHe _ _ _ Hvs). reflexivity. }
    destruct (c =? DQUOTE).
    { destruct (parse_string_body rest) as [[str r0]|] eqn:Hstr; [| discriminate].
      intros [= <- <-]. rewrite (parse_string_body_brace _ _ _ Hstr). reflexivity. }
    destruct (c =? ch "t").
    { destruct (strip_prefix (js "true") (c :: rest)) as [r0|] eqn:Hp; [| discriminate].
      intros [= <- <-]. rewrite (strip_prefix_brace _ _ _ Hp). reflexivity. }
    destruct (c =? ch "f").
    { destruct (strip_prefix (js "false") (c :: rest)) as [r0|] eqn:Hp; [| discriminate].
      intros [= <- <-]. rewrite (strip_prefix_brace _ _ _ Hp). reflexivity. }
    destruct (c =? ch "n").
    { destruct (strip_prefix (js "null") (c :: rest)) as [r0|] eqn:Hp; [| discriminate].
      intros [= <- <-]. rewrite (strip_prefix_brace _ _ _ Hp). reflexivity. }
    destruct (parse_number (c :: rest)) as [[lexeme r0]|] eqn:Hn; [| discriminate].
    intros [= <- <-]. rewrite (parse_number_brace _ _ _ Hn). reflexivity.
  - intros s ms r. rewrite !parse_members_unfold.
    destruct (expect DQUOTE s) as [r1|] eqn:H1; [| discriminate].
    rewrite (expect_brace _ _ _ H1).
    destruct (parse_string_body r1) as [[k r2]|] eqn:H2; [| discriminate].
    rewrite (parse_string_body_brace _ _ _ H2), skip_ws_brace.
    destruct (expect (ch ":") (skip_ws r2)) as [r3|] eqn:H3; [| discriminate].
    rewrite (expect_brace _ _ _ H3), skip_ws_brace.
    destruct (parse_value fuel (skip_ws r3)) as [[v r4]|] eqn:H4; [| discriminate].
    rewrite (IHv _ _ _ H4), skip_ws_brace.
    destruct (skip_ws r4) as [|c r5] eqn:H5; [discriminate |]. cbn [app].
    destruct (c =? ch ",").
    + rewrite skip_ws_brace.
      destruct (parse_members fuel (skip_ws r5)) as [[ms' r6]|] eqn:H6; [| discriminate].
      intros [= <- <-]. rewrite (IHm _ _ _ H6). reflexivity.
    + destruct (c =? ch "}"); [| discriminate]. intros [= <- <-]. reflexivity.
  - intros s vs r. rewrite !parse_elements_unfold.
    destruct (parse_value fuel s) as [[v r1]|] eqn:H1; [| discriminate].
    rewrite (IHv _ _ _ H1), skip_ws_brace.
    destruct (skip_ws r1) as [|c r2] eqn:H2; [discriminate |]. cbn [app].
    destruct (c =? ch ",").
    + rewrite skip_ws_brace.
      destruct (parse_elements fuel (skip_ws r2)) as [[vs' r3]|] eqn:H3; [| discriminate].
      intros [= <- <-]. rewrite (IHe _ _ _ H3). reflexivity.
    + destruct (c =? ch "]"); [| discriminate]. intros [= <- <-]. reflexivity.
Qed.

(** JSON text followed by an opening brace is not JSON text. *)
Lemma JSON_parse_brace s v : JSON_parse s = Some v -> JSON_parse (s ++ y) = None.
Proof.
  intros Hs.
  rewrite (JSON_parse_fuel s (S (2 * length (s ++ y)))) in Hs
    by (rewrite length_app; lia).
  unfold JSON_parse. rewrite skip_ws_brace.
  destruct (parse_value (S (2 * length (s ++ y))) (skip_ws s)) as [[v' r]|] eqn:Hv;
    [| discriminate].
  rewrite (proj1 (parse_brace _) _ _ _ Hv), skip_ws_brace.
  destruct (skip_ws r); [reflexivity | discriminate].
Qed.

End BraceAfter.

(** ** Reading never writes *)

Lemma loadEntries_world (p : jsstring) (w : World) :
  exists o, loadEntries p w = (w, o).
Proof.
  unfold loadEntries, try_catch, bind, fs_readFile, ret, throw, lift.
  destruct (w !! p) as [[c|e]|]; [eauto | | eauto].
  cbn [is_ENOENT]. destruct (jsstring_eqb (errno_code e) (js "ENOENT")); eauto.
Qed.

(** X1. Loading the store and the four read tools leave the file system as
    it is, whatever it holds and whether they return or throw. *)
Theorem read_tools_never_write (p q : jsstring) (w : World) :
  fst (loadEntries p w) = w /\
  fst (notes_list p w) = w /\
  fst (notes_list_kind p q w) = w /\
  fst (notes_get p q w) = w /\
  fst (notes_find p q w) = w.
Proof.
  destruct (loadEntries_world p w) as [o Ho].
  unfold notes_list, notes_list_kind, notes_get, notes_find, bind. rewrite Ho.
  destruct o as [entries|e]; repeat split.
  cbn [fst]. destruct (find _ entries); reflexivity.
Qed.

Section FurtherStoreFacts.
Context `{Platform}.



Lemma split_lines_line_crlf l rest :
  printable l -> split_lines (l ++ CR :: LF :: rest) = l :: split_lines rest.
Proof.
  induction 1 as [|c l Hc Hl IH]; [reflexivity |].
  change ((c :: l) ++ CR :: LF :: rest) with (c :: (l ++ CR :: LF :: rest)).
  rewrite split_lines_unfold.
  destruct (N.eqb_spec c LF); [unfold LF in *; lia |].
  destruct (N.eqb_spec c CR); [unfold CR in *; lia |].
  rewrite IH. destruct l; reflexivity.
Qed.

Lemma split_lines_stored_line item rest :
  split_lines (stored_line item ++ rest) =
  match fst item with Some e => JSON_stringify e | None => [] end :: split_lines rest.
Proof.
  destruct item as [[e|] [|]]; unfold stored_line, line_end; cbn [fst snd];
    rewrite <- ?app_assoc; cbn [app].
  - apply split_lines_line_crlf, printable_JSON_stringify.
  - apply split_lines_line, printable_JSON_stringify.
  - reflexivity.
  - reflexivity.
Qed.

Lemma load_loop_items items (last : option NoteEntry) : forall i acc,
  load_loop i
    (split_lines (concat (List.map stored_line items)
                  ++ match last with Some e => JSON_stringify e | None => [] end)) acc =
  Returned (acc ++ omap fst items ++ option_list last).
Proof.
  induction items as [|item items IH]; intros i acc.
  - cbn [List.map concat app omap]. destruct last as [e|].
    + rewrite split_lines_printable by apply printable_JSON_stringify.
      cbn [load_loop]. rewrite JSON_stringify_nonempty, decode_stringify. reflexivity.
    + cbn. rewrite app_nil_r. reflexivity.
  - cbn [List.map concat]. rewrite <- app_assoc, split_lines_stored_line.
    destruct item as [[e|] b]; cbn [fst load_loop].
    + rewrite JSON_stringify_nonempty, decode_stringify, IH.
      cbn [omap fst]. rewrite <- !app_assoc. reflexivity.
    + cbn [jsstring_eqb]. rewrite IH. reflexivity.
Qed.

(** X4. A store file made of encoded entries and blank lines, each ended by
    LF or by CR LF, and possibly a last entry with no line end, loads to
    its entries in order. *)
Theorem load_mixed_line_ends (p : jsstring) (w : World)
    (items : list (option NoteEntry * bool)) (last : option NoteEntry) :
  w !! p = Some (File (concat (List.map stored_line items)
                       ++ match last with Some e => JSON_stringify e | None => [] end)) ->
  loadEntries p w = (w, Returned (omap fst items ++ option_list last)).
Proof.
  intros Hw. rewrite (loadEntries_file p _ w Hw), load_loop_items. reflexivity.
Qed.

End FurtherStoreFacts.

(** ** Records with more or fewer properties *)

(** X5. The record check accepts exactly the objects whose [id],
    [timestamp] and [text] are strings and whose [file] and [kind] are
    strings or missing: [null], arrays, strings, numbers and booleans are
    refused, and so is an object with a [null] or numeric optional field. *)
Theorem isNoteEntry_accepts_exactly (v : json) :
  isNoteEntry v = true <-> valid_record v.
Proof. apply isNoteEntry_spec. Qed.

Lemma get_own_other props1 k' v props2 k :
  k' <> k -> get_own (props1 ++ (k', v) :: props2) k = get_own (props1 ++ props2) k.
Proof.
  intros Hk. induction props1 as [|[k1 v1] props1 IH].
  - cbn [app get_own]. destruct (get_own props2 k); [reflexivity |].
    destruct (jsstring_eqb k' k) eqn:He; [| reflexivity].
    apply jsstring_eqb_eq in He. contradiction.
  - cbn [app get_own]. rewrite IH. reflexivity.
Qed.

(** X6. A property under any other key than the five of an entry changes
    nothing, wherever it stands in the object: the object is accepted or
    refused as without it, and read as the same entry. *)
Theorem unknown_property_ignored (props1 props2 : list (jsstring * json))
    (k : jsstring) (v : json) :
  k <> js "id" -> k <> js "timestamp" -> k <> js "text" -> k <> js "file" -> k <> js "kind" ->
  isNoteEntry (JObject (props1 ++ (k, v) :: props2)) = isNoteEntry (JObject (props1 ++ props2)) /\
  asNoteEntry (JObject (props1 ++ (k, v) :: props2)) = asNoteEntry (JObject (props1 ++ props2)).
Proof.
  intros H1 H2 H3 H4 H5.
  unfold isNoteEntry, asNoteEntry, string_prop, Get.
  rewrite !get_own_other by assumption. split; reflexivity.
Qed.

Section FurtherToolFacts.
Context `{Platform}.

Lemma approved_append (p : jsstring) (entry : NoteEntry) (w : World)
    (old : list NoteEntry) (L : list jsstring) (answer : ToolResult) :
  usable w p ->
  split_lines (file_text w p) = L ++ [[]] ->
  loadEntries p w = (w, Returned old) ->
  exists w' : World,
    (wait appendEntry p entry ;; ret answer) w = (w', Returned answer) /\
    loadEntries p w' = (w', Returned (old ++ [entry])).
Proof.
  intros Hu HL Hload.
  destruct (append_keeps_history p entry w old L Hu HL Hload)
    as (w' & Ha & _ & _ & _ & Hl & _).
  exists w'. unfold bind. rewrite Ha. split; [reflexivity | exact Hl].
Qed.


(** X8. When the store path cannot be written, each approved write tool
    throws the error of the file system as it is and changes nothing. *)
Theorem approved_write_failure (p : jsstring) (d : Drawn) (t : jsstring)
    (f ts k : option jsstring) (w : World) (e : ErrnoException) :
  w !! p = Some (Faulty e) ->
  notes_store p d t true f ts k w = (w, Thrown (ErrnoError e)) /\
  teach_request p d t true f ts w = (w, Thrown (ErrnoError e)) /\
  teach_note p d t true f ts w = (w, Thrown (ErrnoError e)).
Proof.
  intros Hw.
  unfold notes_store, teach_request, teach_note, appendEntry, ensureStoreDir,
    fs_mkdir_recursive, fs_appendFile, bind, ret.
  cbn [negb]. rewrite Hw. repeat split.
Qed.


End FurtherToolFacts.

Lemma filter_all {A} (f : A -> bool) (l : list A) :
  (forall x, f x = true) -> List.filter f l = l.
Proof.
  intros Hf. induction l as [|x l IH]; [reflexivity |].
  cbn [List.filter]. rewrite Hf, IH. reflexivity.
Qed.

Lemma includes_empty s : includes s [] = true.
Proof. destruct s; reflexivity. Qed.

(** X10. A search for the empty string keeps every entry: it answers with
    the whole store, like the list tool when the store is not empty. *)
Theorem notes_find_empty_needle (p : jsstring) (w : World) (entries : list NoteEntry) :
  loadEntries p w = (w, Returned entries) ->
  notes_find p [] w =
    (w, Returned (text_result
           (formatEntries entries (js "No notes matched the exact substring.")))) /\
  (entries <> [] -> notes_find p [] w = notes_list p w).
Proof.
  intros Hload. unfold notes_find, notes_list, bind. rewrite Hload.
  rewrite filter_all by (intros x; apply includes_empty).
  split; [reflexivity |]. intros Hne. destruct entries; [congruence | reflexivity].
Qed.

Lemma join_app sep (l1 l2 : list jsstring) :
  l1 <> [] -> l2 <> [] -> join sep (l1 ++ l2) = join sep l1 ++ sep ++ join sep l2.
Proof.
  intros H1 H2. induction l1 as [|x [|x' l1] IH]; [congruence | |].
  - destruct l2; [congruence | reflexivity].
  - change (join sep ((x :: x' :: l1) ++ l2)) with (x ++ sep ++ join sep ((x' :: l1) ++ l2)).
    rewrite IH by discriminate.
    change (join sep (x :: x' :: l1)) with (x ++ sep ++ join sep (x' :: l1)).
    rewrite <- !app_assoc. reflexivity.
Qed.

(** X11. The rendering of a list is the empty message for no entry, the
    rendering of the entry for one, and for two non-empty lists put
    together their renderings with one blank line between. *)
Theorem formatEntries_composes (es1 es2 : list NoteEntry) (e : NoteEntry) (m : jsstring) :
  formatEntries [] m = m /\
  formatEntries [e] m = formatEntry e /\
  (es1 <> [] -> es2 <> [] ->
   formatEntries (es1 ++ es2) m = formatEntries es1 m ++ [LF; LF] ++ formatEntries es2 m).
Proof.
  split; [reflexivity |]. split; [reflexivity |].
  intros H1 H2. unfold formatEntries.
  destruct es1 as [|a es1]; [congruence |]. destruct es2 as [|b es2]; [congruence |].
  change (join [LF; LF] (List.map formatEntry ((a :: es1) ++ b :: es2)) =
          join [LF; LF] (List.map formatEntry (a :: es1)) ++ [LF; LF]
          ++ join [LF; LF] (List.map formatEntry (b :: es2))).
  rewrite map_app. apply join_app; discriminate.
Qed.

(** ** Which error a bad line gives *)

Lemma load_loop_good_prefix (lines : list jsstring) : forall (i : nat) (acc : list NoteEntry) (k : nat),
  (forall (j : nat) (l : jsstring),
      (j < k)%nat -> lines !! j = Some l -> l = [] \/ ~ malformed l) ->
  (k <= length lines)%nat ->
  exists acc', load_loop i lines acc =
               load_loop (i + k) (drop k lines) acc'.
Proof.
  induction lines as [|l0 lines IH]; intros i acc k Hgood Hk.
  - destruct k; [| simpl in Hk; lia]. exists acc. rewrite Nat.add_0_r. reflexivity.
  - destruct k as [|k]; [exists acc; rewrite Nat.add_0_r; reflexivity |].
    assert (forall j l, (j < k)%nat -> lines !! j = Some l -> l = [] \/ ~ malformed l) as Hgood'.
    { intros j l Hj Hl. apply (Hgood (S j)); [lia | exact Hl]. }
    cbn [load_loop drop]. replace (i + S k)%nat with (S i + k)%nat by lia.
    simpl in Hk.
    destruct (jsstring_eqb l0 []) eqn:He; [apply IH; [exact Hgood' | lia] |].
    destruct (Hgood 0%nat l0 ltac:(lia) eq_refl) as [-> | Hok]; [discriminate |].
    destruct (decode_line_valid i l0 Hok) as [e ->]. apply IH; [exact Hgood' | lia].
Qed.

(** X12. The error of a load tells what is wrong with the first bad line: a
    line that is not JSON text gives [Invalid note store format], a line
    that is JSON text but no record gives [Invalid note entry], each with
    the 1-based number of the line. *)
Theorem load_error_kind (p : jsstring) (w : World) (content : jsstring)
    (k : nat) (bad : jsstring) :
  w !! p = Some (File content) ->
  split_lines content !! k = Some bad ->
  bad <> [] ->
  (forall (j : nat) (l : jsstring),
      (j < k)%nat -> split_lines content !! j = Some l -> l = [] \/ ~ malformed l) ->
  (JSON_parse bad = None ->
   loadEntries p w =
     (w, Thrown (JsError (js "Invalid note store format at line "
                          ++ decimal (k + 1) ++ js ".")))) /\
  (forall v, JSON_parse bad = Some v -> ~ valid_record v ->
   loadEntries p w =
     (w, Thrown (JsError (js "Invalid note entry at line " ++ decimal (k + 1) ++ js ".")))).
Proof.
  intros Hw Hk Hne Hgood.
  rewrite (loadEntries_file p content w Hw).
  assert (k < length (split_lines content))%nat as Hlen
    by (apply lookup_lt_is_Some; eauto).
  destruct (load_loop_good_prefix (split_lines content) 0 [] k Hgood ltac:(lia))
    as [acc Hloop].
  rewrite Hloop. rewrite (drop_S _ _ _ Hk). cbn [load_loop Nat.add].
  rewrite (jsstring_eqb_nil bad Hne). unfold decode_line. split.
  - intros ->. reflexivity.
  - intros v -> Hv. destruct (isNoteEntry v) eqn:Hi; [| reflexivity].
    apply isNoteEntry_spec in Hi. contradiction.
Qed.

(** ** Start-up *)

Section StartUpFacts.
Context `{Platform}.
Variable moduleDir : jsstring.
Variable number_truthy : jsstring -> bool.

Let packageJsonPath : jsstring := path_join [packageRoot moduleDir; js "package.json"].
Let contractPath : jsstring := path_join [packageRoot moduleDir; js "AGENTS.md"].

Lemma readPackageInfo_object (w : World) (raw : jsstring) (props : list (jsstring * json)) :
  w !! packageJsonPath = Some (File raw) ->
  JSON_parse raw = Some (JObject props) ->
  readPackageInfo moduleDir number_truthy w =
    (w, Returned
          {| name := or_else number_truthy (get_own props (js "name"))
                       (JString (js "threadkeeper-mcp"));
             version := or_else number_truthy (get_own props (js "version"))
                          (JString (js "0.0.0")) |}).
Proof.
  intros Hw Hraw. unfold readPackageInfo, try_catch, bind, fs_readFile, lift, ret.
  fold packageJsonPath. rewrite Hw, Hraw. reflexivity.
Qed.

Lemma readPackageInfo_other (w : World) :
  (forall raw props, w !! packageJsonPath = Some (File raw) ->
                     JSON_parse raw <> Some (JObject props)) ->
  readPackageInfo moduleDir number_truthy w = (w, Returned DEFAULT_INFO).
Proof.
  intros Hno. unfold readPackageInfo, try_catch, bind, fs_readFile, lift, ret.
  fold packageJsonPath.
  destruct (w !! packageJsonPath) as [[raw|e]|] eqn:Hw; [| reflexivity | reflexivity].
  destruct (JSON_parse raw) as [[| | | | |props]|] eqn:Hraw; try reflexivity.
  exfalso. exact (Hno raw props eq_refl Hraw).
Qed.

Lemma readPackageInfo_returns (w : World) :
  exists info, readPackageInfo moduleDir number_truthy w = (w, Returned info).
Proof.
  destruct (w !! packageJsonPath) as [[raw|e]|] eqn:Hw.
  - destruct (JSON_parse raw) as [[| | | | |props]|] eqn:Hraw;
      try (exists DEFAULT_INFO; apply readPackageInfo_other;
           intros raw' props' Hw'; rewrite Hw in Hw'; injection Hw' as <-;
           rewrite Hraw; discriminate).
    eexists. apply (readPackageInfo_object w raw props Hw Hraw).
  - exists DEFAULT_INFO. apply readPackageInfo_other. intros raw' props' Hw'.
    rewrite Hw in Hw'. discriminate.
  - exists DEFAULT_INFO. apply readPackageInfo_other. intros raw' props' Hw'.
    rewrite Hw in Hw'. discriminate.
Qed.

(** X13. Reading the package information never throws and never writes.
    It gives the default name and version unless [package.json] is a
    readable file holding a JSON object; for an object, the name is its
    [name] when that is a non-empty string and the default when it is
    missing or empty, and likewise the version, each on its own. *)
Theorem readPackageInfo_result (w : World) :
  (exists info, readPackageInfo moduleDir number_truthy w = (w, Returned info)) /\
  ((forall raw props, w !! packageJsonPath = Some (File raw) ->
                      JSON_parse raw <> Some (JObject props)) ->
   readPackageInfo moduleDir number_truthy w = (w, Returned DEFAULT_INFO)) /\
  (forall raw props info,
     w !! packageJsonPath = Some (File raw) ->
     JSON_parse raw = Some (JObject props) ->
     readPackageInfo moduleDir number_truthy w = (w, Returned info) ->
     (forall c s, get_own props (js "name") = Some (JString (c :: s)) ->
                  name info = JString (c :: s)) /\
     (get_own props (js "name") = None \/ get_own props (js "name") = Some (JString []) ->
      name info = JString (js "threadkeeper-mcp")) /\
     (forall c s, get_own props (js "version") = Some (JString (c :: s)) ->
                  version info = JString (c :: s)) /\
     (get_own props (js "version") = None \/ get_own props (js "version") = Some (JString []) ->
      version info = JString (js "0.0.0"))).
Proof.
  split; [| split].
  - apply readPackageInfo_returns.
  - apply readPackageInfo_other.
  - intros raw props info Hw Hraw Hrun.
    rewrite (readPackageInfo_object w raw props Hw Hraw) in Hrun. injection Hrun as <-.
    cbn [name version]. unfold or_else.
    repeat split.
    + intros c s ->. reflexivity.
    + intros [-> | ->]; reflexivity.
    + intros c s ->. reflexivity.
    + intros [-> | ->]; reflexivity.
Qed.

(** X14. The server is constructed with instructions exactly when
    [AGENTS.md] is a readable file with a non-empty text, which is then the
    instructions as it is; in every other case it gets no options.  These
    first steps of [main] neither throw nor write. *)
Theorem main_setup_instructions (w : World) :
  exists info,
    main_setup moduleDir number_truthy w =
      (w, Returned {| serverInfo := info;
                      serverOptions :=
                        match w !! contractPath with
                        | Some (File (c :: s)) => Some (c :: s)
                        | _ => None
                        end |}).
Proof.
  destruct (readPackageInfo_returns w) as [info Hinfo].
  exists info. unfold main_setup, bind. rewrite Hinfo.
  unfold readContract, try_catch, bind, fs_readFile, ret. fold contractPath.
  destruct (w !! contractPath) as [[[|c s]|e]|]; reflexivity.
Qed.

End StartUpFacts.

(** ** The prompt *)

(** X15. The teach.scope prompt is one assistant message.  An empty topic
    gives the same prompt as no topic; for a topic without line feed the
    text is seven lines: the lead with the topic as it is, a blank line and
    five fixed lines. *)
Theorem teach_scope_prompt (topic : jsstring) :
  teach_scope (Some []) = teach_scope None /\
  (exists text, messages (teach_scope (Some topic)) =
     [ {| role := js "assistant";
          message_content := {| content_type := js "text"; content_text := text |} |} ] /\
     (topic <> [] -> ~ In LF topic ->
      split_on LF text =
        [js "You asked about " ++ topic ++ js ".";
         [];
         js "Before I explain, please confirm:";
         js "- The specific file(s) or snippet to focus on";
         js "- What you want to understand (behavior, structure, or intent)";
         js "- Desired depth (overview or line-by-line)";
         js "- Whether you want suggested changes or just explanation"])).
Proof.
  split; [reflexivity |]. eexists. split; [reflexivity |].
  intros Hne Hlf. rewrite split_on_join.
  - destruct topic; [congruence | reflexivity].
  - discriminate.
  - destruct topic as [|c topic]; [congruence |].
    cbn [teach_scope_lines truthy default].
    repeat constructor; try (apply plain_ascii_no_LF; reflexivity).
    apply no_LF_labelled; [reflexivity |].
    intros Hin. apply in_app_or in Hin as [Hin|Hin]; [exact (Hlf Hin) |].
    exact (plain_ascii_no_LF (js ".") eq_refl Hin).
Qed.

(** ** Worked instances of the further properties *)

Ltac differ := let Hc := fresh in intros Hc; vm_compute in Hc; discriminate.

Lemma usable_stored (content : jsstring) : usable (stored content) store.
Proof. intros e. unfold stored. rewrite lookup_singleton_eq. discriminate. Qed.



Lemma load_mixed_line_ends_witness :
  loadEntries store (stored mixed_content) =
    (stored mixed_content, Returned [note1; note2; note3]).
Proof.
  apply (load_mixed_line_ends store (stored mixed_content) mixed_items (Some note3)).
  apply lookup_singleton_eq.
Defined.

Lemma unknown_property_ignored_witness :
  isNoteEntry (JObject [(js "id", JString (js "a")); (js "extra", JNull);
                        (js "timestamp", JString (js "t")); (js "text", JString (js "x"))]) =
  isNoteEntry (JObject [(js "id", JString (js "a"));
                        (js "timestamp", JString (js "t")); (js "text", JString (js "x"))]).
Proof.
  apply (proj1 (unknown_property_ignored [(js "id", JString (js "a"))]
                  [(js "timestamp", JString (js "t")); (js "text", JString (js "x"))]
                  (js "extra") JNull ltac:(differ) ltac:(differ) ltac:(differ)
                  ltac:(differ) ltac:(differ))).
Defined.


Lemma approved_write_failure_witness :
  @notes_store linux store drawn1 (js "x") true None None None {[ store := Faulty eacces ]} =
    ({[ store := Faulty eacces ]}, Thrown (ErrnoError eacces)).
Proof.
  apply (proj1 (@approved_write_failure linux store drawn1 (js "x") None None None
                  {[ store := Faulty eacces ]} eacces (lookup_singleton_eq _ _))).
Defined.


Lemma notes_find_empty_needle_witness :
  notes_find store [] (stored (store_text [note1; note2])) =
  notes_list store (stored (store_text [note1; note2])).
Proof.
  apply (proj2 (notes_find_empty_needle store (stored (store_text [note1; note2]))
                  [note1; note2] ltac:(vm_compute; reflexivity))).
  discriminate.
Defined.

Lemma formatEntries_composes_witness :
  formatEntries [note1; note2] (js "none") =
  formatEntries [note1] (js "none") ++ [LF; LF] ++ formatEntries [note2] (js "none").
Proof.
  apply (proj2 (proj2 (formatEntries_composes [note1] [note2] note1 (js "none"))));
    discriminate.
Defined.

Lemma load_error_kind_witness :
  loadEntries store (stored bad_content) =
    (stored bad_content, Thrown (JsError (js "Invalid note entry at line 3."))) /\
  loadEntries store (stored (js "not json")) =
    (stored (js "not json"), Thrown (JsError (js "Invalid note store format at line 1."))).
Proof.
  split.
  - apply (proj2 (load_error_kind store (stored bad_content) bad_content 2 wrong_type_line
                    (lookup_singleton_eq _ _) ltac:(vm_compute; reflexivity)
                    ltac:(discriminate)
                    ltac:(intros [|[|j]] l Hj Hl; [right | left | lia];
                          vm_compute in Hl; injection Hl as <-;
                          [intros Hm;
                           apply (Hm (JObject (List.map string_member (entry_members note1))));
                           [vm_compute; reflexivity | apply isNoteEntry_spec; vm_compute; reflexivity]
                          | reflexivity]))
             (JObject [(js "id", JString (js "a")); (js "timestamp", JString (js "t"));
                       (js "text", JString (js "x")); (js "file", JNumber (js "1"))])).
    + vm_compute. reflexivity.
    + rewrite <- isNoteEntry_spec. vm_compute. discriminate.
  - apply (proj1 (load_error_kind store (stored (js "not json")) (js "not json") 0
                    (js "not json") (lookup_singleton_eq _ _) ltac:(vm_compute; reflexivity)
                    ltac:(discriminate) ltac:(intros; lia))).
    vm_compute. reflexivity.
Defined.

Lemma readPackageInfo_result_witness :
  exists info,
    @readPackageInfo linux module_dir digits_nonzero installed = (installed, Returned info) /\
    name info = JString (js "@tac0de/threadkeeper-mcp") /\
    version info = JString (js "0.0.0").
Proof.
  destruct (proj1 (@readPackageInfo_result linux module_dir digits_nonzero installed))
    as [info Hinfo].
  destruct (proj2 (proj2 (@readPackageInfo_result linux module_dir digits_nonzero installed))
              package_json
              [(js "name", JString (js "@tac0de/threadkeeper-mcp"));
               (js "version", JString []); (js "private", JBool true)]
              info ltac:(vm_compute; reflexivity) ltac:(vm_compute; reflexivity) Hinfo)
    as (Hname & _ & _ & Hversion).
  exists info. split; [exact Hinfo |]. split.
  - apply (Hname (ch "@") (js "tac0de/threadkeeper-mcp")). vm_compute. reflexivity.
  - apply Hversion. right. vm_compute. reflexivity.
Defined.

Lemma teach_scope_prompt_witness :
  exists text,
    messages (teach_scope (Some (js "parsers"))) =
      [ {| role := js "assistant";
           message_content := {| content_type := js "text"; content_text := text |} |} ] /\
    nth_error (split_on LF text) 0 = Some (js "You asked about parsers.").
Proof.
  destruct (proj2 (teach_scope_prompt (js "parsers"))) as (text & Hmsg & Hlines).
  exists text. split; [exact Hmsg |].
  rewrite Hlines; [reflexivity | discriminate |].
  apply plain_ascii_no_LF. reflexivity.
Defined.
